(** * AdvancedCounter: a shallow embedding of the React component and its
      persistence / history / keyboard lifecycle.

    The development follows the full AdvancedCounter component (count
    loaded from localStorage, step, history, debounced save, keyboard
    shortcuts, reset) and the first-step component of the same name in
    [src/components/AdvancedCounter.tsx] (count and history only).

    - Module [JS]      : ECMAScript Number values (IEEE-754 binary64, taken
                         from the Standard Library's [SpecFloat]) with the
                         builtins the component calls: [Number(string)],
                         [String(number)], [===], [Object.is],
                         [Number.isFinite], [Number.isNaN].
    - Module [Runtime] : the world the component runs in (React state and
                         refs, localStorage, timers, clock, the document's
                         keydown listener) and a state-and-exception monad
                         in which hooks and handlers are written.
    - Module [AdvancedCounter] : the component, effect by effect and handler
                         by handler, and the event loop that drives it.
    - Module [CoreCounter] : the first-step component. *)

From stdpp Require Import gmap strings list.
From Stdlib Require Import ZArith Ascii String DecimalString.
From Stdlib Require Import Floats.SpecFloat.
From Stdlib Require DecimalPos DecimalN.

Local Open Scope string_scope.
Local Open Scope Z_scope.

(* ================================================================== *)
(** * ECMAScript numbers and the builtins used by the component        *)
(* ================================================================== *)

Module JS.

(** A JavaScript [number] is an IEEE-754 binary64 value. *)
Definition number : Type := spec_float.
Definition prec : Z := 53.
Definition emax : Z := 1024.

Definition NaN : number := S754_nan.
Definition Infinity : number := S754_infinity false.

(** The number denoted by an integer literal (rounded to nearest, ties to
    even, when it does not fit in 53 bits). *)
Definition of_Z (z : Z) : number := binary_normalize prec emax z 0 false.

(** [x + y] and [x - y]. *)
Definition add (x y : number) : number := SFadd prec emax x y.
Definition sub (x y : number) : number := SFsub prec emax x y.

(** [x === y] on numbers: IEEE equality, so [NaN === NaN] is false and
    [+0 === -0] is true. *)
Definition strict_eq (x y : number) : bool := SFeqb x y.

(** [Object.is(x, y)] (SameValue), the comparison React applies to state
    values and to effect dependencies: NaN is the same value as NaN, and
    [+0] differs from [-0]. *)
Definition Object_is (x y : number) : bool :=
  match x, y with
  | S754_zero s1, S754_zero s2 => Bool.eqb s1 s2
  | S754_infinity s1, S754_infinity s2 => Bool.eqb s1 s2
  | S754_nan, S754_nan => true
  | S754_finite s1 m1 e1, S754_finite s2 m2 e2 =>
      Bool.eqb s1 s2 && Pos.eqb m1 m2 && Z.eqb e1 e2
  | _, _ => false
  end.

Definition Number_isFinite (x : number) : bool :=
  match x with
  | S754_zero _ | S754_finite _ _ _ => true
  | S754_infinity _ | S754_nan => false
  end.

Definition Number_isNaN (x : number) : bool :=
  match x with S754_nan => true | _ => false end.

(** [x] is an integer greater than zero: finite, positive, and with no
    fractional bits. *)
Definition is_positive_integer (x : number) : bool :=
  match x with
  | S754_finite false m e => (0 <=? e) || (Zpos m mod 2 ^ (- e) =? 0)
  | _ => false
  end.

(** ** [Number(string)]: StringToNumber

    Strings are sequences of code units below 256.  The grammar is
    StringNumericLiteral: optional white space around either nothing
    (giving [+0]), a signed decimal literal with optional fraction and
    exponent, [Infinity], or an unsigned [0x] / [0o] / [0b] integer.
    Anything else is [NaN].  The mathematical value is rounded to the
    nearest binary64 value. *)

Definition code (c : ascii) : Z := Z.of_nat (nat_of_ascii c).

Definition StrWhiteSpaceChar (c : ascii) : bool :=
  let n := code c in
  ((9 <=? n) && (n <=? 13)) || (n =? 32) || (n =? 160).

Fixpoint skip_ws (s : string) : string :=
  match s with
  | String c s' => if StrWhiteSpaceChar c then skip_ws s' else s
  | EmptyString => s
  end.

Definition rev_string (s : string) : string :=
  string_of_list_ascii (List.rev (list_ascii_of_string s)).

Definition trim (s : string) : string :=
  rev_string (skip_ws (rev_string (skip_ws s))).

(** Value of a digit in the given radix, if it is one. *)
Definition digit_of (radix : Z) (c : ascii) : option Z :=
  let n := code c in
  let v := if (48 <=? n) && (n <=? 57) then n - 48
           else if (97 <=? n) && (n <=? 102) then n - 87
           else if (65 <=? n) && (n <=? 70) then n - 55
           else radix in
  if v <? radix then Some v else None.

(** Reads a maximal run of digits: accumulated value, number of digits
    read, and the rest of the input. *)
Fixpoint digits (radix : Z) (s : string) (acc len : Z) : Z * Z * string :=
  match s with
  | String c s' =>
      match digit_of radix c with
      | Some v => digits radix s' (radix * acc + v) (len + 1)
      | None => (acc, len, s)
      end
  | EmptyString => (acc, len, s)
  end.

(** The binary64 value nearest to [(-1)^neg * n * 10^e10], for [n >= 0]. *)
Definition of_decimal (neg : bool) (n e10 : Z) : number :=
  match n with
  | Zpos p =>
      if 0 <=? e10
      then binary_normalize prec emax
             (cond_Zopp neg (Zpos p * 10 ^ e10)) 0 false
      else
        let '(q, e2, l) :=
          SFdiv_core_binary prec emax (Zpos p) 0 (10 ^ (- e10)) 0 in
        binary_round_aux prec emax neg q e2 l
  | _ => S754_zero neg
  end.

(** ExponentPart, after the [e]: an optionally signed run of digits. *)
Definition exponent_part (s : string) : option (Z * string) :=
  let '(neg, s1) :=
    match s with
    | String "+" r => (false, r)
    | String "-" r => (true, r)
    | _ => (false, s)
    end in
  let '(v, len, rest) := digits 10 s1 0 0 in
  if len =? 0 then None else Some (cond_Zopp neg v, rest).

(** StrUnsignedDecimalLiteral other than [Infinity]. *)
Definition unsigned_decimal (neg : bool) (s : string) : number :=
  let '(ip, ni, r1) := digits 10 s 0 0 in
  let '(m, nf, r2) :=
    match r1 with
    | String "." r => digits 10 r ip 0
    | _ => (ip, 0, r1)
    end in
  if ni + nf =? 0 then NaN
  else
    match r2 with
    | EmptyString => of_decimal neg m (- nf)
    | String c r =>
        if (code c =? 101) || (code c =? 69) then
          match exponent_part r with
          | Some (e, EmptyString) => of_decimal neg m (e - nf)
          | _ => NaN
          end
        else NaN
    end.

Definition signed_decimal (neg : bool) (s : string) : number :=
  if String.eqb s "Infinity" then S754_infinity neg
  else unsigned_decimal neg s.

Definition non_decimal (radix : Z) (s : string) : number :=
  match digits radix s 0 0 with
  | (v, len, EmptyString) => if len =? 0 then NaN else of_Z v
  | _ => NaN
  end.

Definition Number (raw : string) : number :=
  match trim raw with
  | EmptyString => S754_zero false
  | String "+" s => signed_decimal false s
  | String "-" s => signed_decimal true s
  | String "0" (String "x" s) | String "0" (String "X" s) => non_decimal 16 s
  | String "0" (String "o" s) | String "0" (String "O" s) => non_decimal 8 s
  | String "0" (String "b" s) | String "0" (String "B" s) => non_decimal 2 s
  | s => signed_decimal false s
  end.

(** ** [String(number)]: Number::toString, radix 10

    For a finite non-zero [x > 0] the digits are the shortest decimal
    [s * 10^(n-k)] (with [k] digits) that reads back as [x]; among
    several of the same length the closest to [x], then the even one. *)

Definition dec (z : Z) : string := NilZero.string_of_uint (N.to_uint (Z.to_N z)).

Fixpoint zeros (n : nat) : string :=
  match n with O => EmptyString | S n' => String "0" (zeros n') end.

(** Least [j >= from] with [den <= num * 10^j]. *)
Fixpoint first_scale (fuel : nat) (num den from : Z) : Z :=
  match fuel with
  | O => from
  | S fuel' =>
      if den <=? num * 10 ^ from then from
      else first_scale fuel' num den (from + 1)
  end.

(** [n0] such that [10^(n0-1) <= num/den < 10^n0]. *)
Definition decimal_exponent (num den : Z) : Z :=
  if den <=? num
  then Z.of_nat (String.length (dec (num / den)))
  else 1 - first_scale 400 num den 1.

(** The candidates with [k] digits around [x = num/den], and the one
    that reads back as [x], if any: the digits [s] and the exponent [n]. *)
Definition shortest_at (x : number) (num den n0 k : Z) : option (Z * Z) :=
  let scale := n0 - k in
  let tn := if scale <? 0 then num * 10 ^ (- scale) else num in
  let td := if scale <? 0 then den else den * 10 ^ scale in
  let lo := tn / td in
  let hi := lo + 1 in
  let ok c := Object_is (of_decimal false c scale) x in
  let fix_up c := if c =? 10 ^ k then (10 ^ (k - 1), n0 + 1) else (c, n0) in
  if tn mod td =? 0 then (if ok lo then Some (fix_up lo) else None)
  else
    match ok lo, ok hi with
    | true, true =>
        match 2 * tn ?= (2 * lo + 1) * td with
        | Lt => Some (fix_up lo)
        | Gt => Some (fix_up hi)
        | Eq => Some (fix_up (if Z.even lo then lo else hi))
        end
    | true, false => Some (fix_up lo)
    | false, true => Some (fix_up hi)
    | false, false => None
    end.

Fixpoint shortest (fuel : nat) (x : number) (num den n0 k : Z) : Z * Z :=
  match fuel with
  | O => (0, 0)
  | S fuel' =>
      match shortest_at x num den n0 k with
      | Some r => r
      | None => shortest fuel' x num den n0 (k + 1)
      end
  end.

Definition format_digits (ds : string) (n : Z) : string :=
  let k := Z.of_nat (String.length ds) in
  if (k <=? n) && (n <=? 21) then ds ++ zeros (Z.to_nat (n - k))
  else if (0 <? n) && (n <=? 21)
  then substring 0 (Z.to_nat n) ds ++ "." ++
       substring (Z.to_nat n) (Z.to_nat (k - n)) ds
  else if (-6 <? n) && (n <=? 0) then "0." ++ zeros (Z.to_nat (- n)) ++ ds
  else
    let e := n - 1 in
    let es := (if e <? 0 then "-" else "+") ++ dec (Z.abs e) in
    if k =? 1 then ds ++ "e" ++ es
    else substring 0 1 ds ++ "." ++
         substring 1 (Z.to_nat (k - 1)) ds ++ "e" ++ es.

Definition String (x : number) : string :=
  match x with
  | S754_nan => "NaN"
  | S754_zero _ => "0"
  | S754_infinity s => if s then "-Infinity" else "Infinity"
  | S754_finite s m e =>
      let num := if 0 <=? e then Zpos m * 2 ^ e else Zpos m in
      let den := if 0 <=? e then 1 else 2 ^ (- e) in
      let n0 := decimal_exponent num den in
      let '(d, n) := shortest 17 (S754_finite false m e) num den n0 1 in
      (if s then "-" else EmptyString) ++ format_digits (dec d) n
  end.

End JS.


(* ================================================================== *)
(** * The world the component runs in                                  *)
(* ================================================================== *)

Module Runtime.

(** A pending [window.setTimeout] callback.  The only callback the
    component schedules is the debounced save, a closure over the
    [count] of the render that scheduled it. *)
Record timer := {
  timer_id : nat;
  timer_due : nat;
  timer_closure : JS.number
}.

Record world := {
  (* React state: useState *)
  count : JS.number;
  history : list JS.number;
  step : JS.number;
  isSaving : bool;
  (* refs: useRef *)
  stepRef : JS.number;
  saveTimerRef : option nat;
  isUnmountedRef : bool;
  (* React: the component instance is mounted *)
  mounted : bool;
  (* window.localStorage and its failure modes *)
  localStorage : gmap string string;
  storage_denied : bool;
  storage_full : bool;
  (* clock (ms), pending window.setTimeout callbacks, document listener *)
  now : nat;
  timers : list timer;
  next_timer_id : nat;
  keydown_attached : bool;
  (* instrumentation: calls observed, newest first *)
  setItem_calls : list (nat * string);
  setIsSaving_calls : list bool
}.

(** Field updates. *)

Definition set_count (v : JS.number) (w : world) : world :=
  {| count := v; history := history w; step := step w; isSaving :=
     isSaving w; stepRef := stepRef w; saveTimerRef := saveTimerRef w;
     isUnmountedRef := isUnmountedRef w; mounted := mounted w;
     localStorage := localStorage w; storage_denied := storage_denied w;
     storage_full := storage_full w; now := now w; timers := timers w;
     next_timer_id := next_timer_id w; keydown_attached :=
     keydown_attached w; setItem_calls := setItem_calls w;
     setIsSaving_calls := setIsSaving_calls w |}.

Definition set_history (v : list JS.number) (w : world) : world :=
  {| count := count w; history := v; step := step w; isSaving := isSaving
     w; stepRef := stepRef w; saveTimerRef := saveTimerRef w;
     isUnmountedRef := isUnmountedRef w; mounted := mounted w;
     localStorage := localStorage w; storage_denied := storage_denied w;
     storage_full := storage_full w; now := now w; timers := timers w;
     next_timer_id := next_timer_id w; keydown_attached :=
     keydown_attached w; setItem_calls := setItem_calls w;
     setIsSaving_calls := setIsSaving_calls w |}.

Definition set_step (v : JS.number) (w : world) : world :=
  {| count := count w; history := history w; step := v; isSaving :=
     isSaving w; stepRef := stepRef w; saveTimerRef := saveTimerRef w;
     isUnmountedRef := isUnmountedRef w; mounted := mounted w;
     localStorage := localStorage w; storage_denied := storage_denied w;
     storage_full := storage_full w; now := now w; timers := timers w;
     next_timer_id := next_timer_id w; keydown_attached :=
     keydown_attached w; setItem_calls := setItem_calls w;
     setIsSaving_calls := setIsSaving_calls w |}.

Definition set_isSaving (v : bool) (w : world) : world :=
  {| count := count w; history := history w; step := step w; isSaving :=
     v; stepRef := stepRef w; saveTimerRef := saveTimerRef w;
     isUnmountedRef := isUnmountedRef w; mounted := mounted w;
     localStorage := localStorage w; storage_denied := storage_denied w;
     storage_full := storage_full w; now := now w; timers := timers w;
     next_timer_id := next_timer_id w; keydown_attached :=
     keydown_attached w; setItem_calls := setItem_calls w;
     setIsSaving_calls := setIsSaving_calls w |}.

Definition set_stepRef (v : JS.number) (w : world) : world :=
  {| count := count w; history := history w; step := step w; isSaving :=
     isSaving w; stepRef := v; saveTimerRef := saveTimerRef w;
     isUnmountedRef := isUnmountedRef w; mounted := mounted w;
     localStorage := localStorage w; storage_denied := storage_denied w;
     storage_full := storage_full w; now := now w; timers := timers w;
     next_timer_id := next_timer_id w; keydown_attached :=
     keydown_attached w; setItem_calls := setItem_calls w;
     setIsSaving_calls := setIsSaving_calls w |}.

Definition set_saveTimerRef (v : option nat) (w : world) : world :=
  {| count := count w; history := history w; step := step w; isSaving :=
     isSaving w; stepRef := stepRef w; saveTimerRef := v; isUnmountedRef
     := isUnmountedRef w; mounted := mounted w; localStorage :=
     localStorage w; storage_denied := storage_denied w; storage_full :=
     storage_full w; now := now w; timers := timers w; next_timer_id :=
     next_timer_id w; keydown_attached := keydown_attached w;
     setItem_calls := setItem_calls w; setIsSaving_calls :=
     setIsSaving_calls w |}.

Definition set_isUnmountedRef (v : bool) (w : world) : world :=
  {| count := count w; history := history w; step := step w; isSaving :=
     isSaving w; stepRef := stepRef w; saveTimerRef := saveTimerRef w;
     isUnmountedRef := v; mounted := mounted w; localStorage :=
     localStorage w; storage_denied := storage_denied w; storage_full :=
     storage_full w; now := now w; timers := timers w; next_timer_id :=
     next_timer_id w; keydown_attached := keydown_attached w;
     setItem_calls := setItem_calls w; setIsSaving_calls :=
     setIsSaving_calls w |}.

Definition set_mounted (v : bool) (w : world) : world :=
  {| count := count w; history := history w; step := step w; isSaving :=
     isSaving w; stepRef := stepRef w; saveTimerRef := saveTimerRef w;
     isUnmountedRef := isUnmountedRef w; mounted := v; localStorage :=
     localStorage w; storage_denied := storage_denied w; storage_full :=
     storage_full w; now := now w; timers := timers w; next_timer_id :=
     next_timer_id w; keydown_attached := keydown_attached w;
     setItem_calls := setItem_calls w; setIsSaving_calls :=
     setIsSaving_calls w |}.

Definition set_localStorage (v : gmap string string) (w : world) : world :=
  {| count := count w; history := history w; step := step w; isSaving :=
     isSaving w; stepRef := stepRef w; saveTimerRef := saveTimerRef w;
     isUnmountedRef := isUnmountedRef w; mounted := mounted w;
     localStorage := v; storage_denied := storage_denied w; storage_full
     := storage_full w; now := now w; timers := timers w; next_timer_id :=
     next_timer_id w; keydown_attached := keydown_attached w;
     setItem_calls := setItem_calls w; setIsSaving_calls :=
     setIsSaving_calls w |}.

Definition set_storage_denied (v : bool) (w : world) : world :=
  {| count := count w; history := history w; step := step w; isSaving :=
     isSaving w; stepRef := stepRef w; saveTimerRef := saveTimerRef w;
     isUnmountedRef := isUnmountedRef w; mounted := mounted w;
     localStorage := localStorage w; storage_denied := v; storage_full :=
     storage_full w; now := now w; timers := timers w; next_timer_id :=
     next_timer_id w; keydown_attached := keydown_attached w;
     setItem_calls := setItem_calls w; setIsSaving_calls :=
     setIsSaving_calls w |}.

Definition set_storage_full (v : bool) (w : world) : world :=
  {| count := count w; history := history w; step := step w; isSaving :=
     isSaving w; stepRef := stepRef w; saveTimerRef := saveTimerRef w;
     isUnmountedRef := isUnmountedRef w; mounted := mounted w;
     localStorage := localStorage w; storage_denied := storage_denied w;
     storage_full := v; now := now w; timers := timers w; next_timer_id :=
     next_timer_id w; keydown_attached := keydown_attached w;
     setItem_calls := setItem_calls w; setIsSaving_calls :=
     setIsSaving_calls w |}.

Definition set_now (v : nat) (w : world) : world :=
  {| count := count w; history := history w; step := step w; isSaving :=
     isSaving w; stepRef := stepRef w; saveTimerRef := saveTimerRef w;
     isUnmountedRef := isUnmountedRef w; mounted := mounted w;
     localStorage := localStorage w; storage_denied := storage_denied w;
     storage_full := storage_full w; now := v; timers := timers w;
     next_timer_id := next_timer_id w; keydown_attached :=
     keydown_attached w; setItem_calls := setItem_calls w;
     setIsSaving_calls := setIsSaving_calls w |}.

Definition set_timers (v : list timer) (w : world) : world :=
  {| count := count w; history := history w; step := step w; isSaving :=
     isSaving w; stepRef := stepRef w; saveTimerRef := saveTimerRef w;
     isUnmountedRef := isUnmountedRef w; mounted := mounted w;
     localStorage := localStorage w; storage_denied := storage_denied w;
     storage_full := storage_full w; now := now w; timers := v;
     next_timer_id := next_timer_id w; keydown_attached :=
     keydown_attached w; setItem_calls := setItem_calls w;
     setIsSaving_calls := setIsSaving_calls w |}.

Definition set_next_timer_id (v : nat) (w : world) : world :=
  {| count := count w; history := history w; step := step w; isSaving :=
     isSaving w; stepRef := stepRef w; saveTimerRef := saveTimerRef w;
     isUnmountedRef := isUnmountedRef w; mounted := mounted w;
     localStorage := localStorage w; storage_denied := storage_denied w;
     storage_full := storage_full w; now := now w; timers := timers w;
     next_timer_id := v; keydown_attached := keydown_attached w;
     setItem_calls := setItem_calls w; setIsSaving_calls :=
     setIsSaving_calls w |}.

Definition set_keydown_attached (v : bool) (w : world) : world :=
  {| count := count w; history := history w; step := step w; isSaving :=
     isSaving w; stepRef := stepRef w; saveTimerRef := saveTimerRef w;
     isUnmountedRef := isUnmountedRef w; mounted := mounted w;
     localStorage := localStorage w; storage_denied := storage_denied w;
     storage_full := storage_full w; now := now w; timers := timers w;
     next_timer_id := next_timer_id w; keydown_attached := v;
     setItem_calls := setItem_calls w; setIsSaving_calls :=
     setIsSaving_calls w |}.

Definition set_setItem_calls (v : list (nat * string)) (w : world) : world :=
  {| count := count w; history := history w; step := step w; isSaving :=
     isSaving w; stepRef := stepRef w; saveTimerRef := saveTimerRef w;
     isUnmountedRef := isUnmountedRef w; mounted := mounted w;
     localStorage := localStorage w; storage_denied := storage_denied w;
     storage_full := storage_full w; now := now w; timers := timers w;
     next_timer_id := next_timer_id w; keydown_attached :=
     keydown_attached w; setItem_calls := v; setIsSaving_calls :=
     setIsSaving_calls w |}.

Definition set_setIsSaving_calls (v : list bool) (w : world) : world :=
  {| count := count w; history := history w; step := step w; isSaving :=
     isSaving w; stepRef := stepRef w; saveTimerRef := saveTimerRef w;
     isUnmountedRef := isUnmountedRef w; mounted := mounted w;
     localStorage := localStorage w; storage_denied := storage_denied w;
     storage_full := storage_full w; now := now w; timers := timers w;
     next_timer_id := next_timer_id w; keydown_attached :=
     keydown_attached w; setItem_calls := setItem_calls w;
     setIsSaving_calls := v |}.

(** ** Computations: state passing with exceptions

    A computation runs in a world and either completes normally with a
    value or throws; in both cases the world it leaves behind is kept
    (a [try] block that throws half-way keeps the writes it made). *)

Inductive exn := SecurityError | QuotaExceededError.

Inductive completion (A : Type) :=
| Normal (a : A)
| Throw (e : exn).
Arguments Normal {A} a.
Arguments Throw {A} e.

Definition js (A : Type) : Type := world -> completion A * world.

Definition ret {A} (a : A) : js A := fun w => (Normal a, w).

Definition bind {A B} (m : js A) (k : A -> js B) : js B :=
  fun w =>
    match m w with
    | (Normal a, w') => k a w'
    | (Throw e, w') => (Throw e, w')
    end.

Definition throw {A} (e : exn) : js A := fun w => (Throw e, w).

(** [try { body } catch { handler }] *)
Definition try_catch {A} (body : js A) (handler : exn -> js A) : js A :=
  fun w =>
    match body w with
    | (Normal a, w') => (Normal a, w')
    | (Throw e, w') => handler e w'
    end.

(** [try { body } finally { fin }]: [fin] always runs; the completion is
    that of [body] unless [fin] itself throws. *)
Definition try_finally {A} (body : js A) (fin : js unit) : js A :=
  fun w =>
    match body w with
    | (r, w') =>
        match fin w' with
        | (Normal _, w'') => (r, w'')
        | (Throw e, w'') => (Throw e, w'')
        end
    end.

Definition gets {A} (f : world -> A) : js A := fun w => (Normal (f w), w).
Definition modify (f : world -> world) : js unit := fun w => (Normal tt, f w).
Definition when (b : bool) (m : js unit) : js unit := if b then m else ret tt.

Declare Scope js_scope.
Delimit Scope js_scope with js.
Notation "x <- m ;; k" := (bind m (fun x => k))
  (at level 100, m at next level, k at level 200, right associativity)
  : js_scope.
Notation "m ;; k" := (bind m (fun _ => k))
  (at level 100, k at level 200, right associativity) : js_scope.
Local Open Scope js_scope.

(** ** React state setters

    A state update on a component that is no longer mounted is dropped.
    [setIsSaving] additionally records that it was called. *)

Definition setCount (f : JS.number -> JS.number) : js unit :=
  modify (fun w => if mounted w then set_count (f (count w)) w else w).

Definition setHistory (f : list JS.number -> list JS.number) : js unit :=
  modify (fun w => if mounted w then set_history (f (history w)) w else w).

Definition setStep (v : JS.number) : js unit :=
  modify (fun w => if mounted w then set_step v w else w).

Definition setIsSaving (v : bool) : js unit :=
  modify (fun w =>
    let w := set_setIsSaving_calls (v :: setIsSaving_calls w) w in
    if mounted w then set_isSaving v w else w).

(** ** [window.localStorage]

    Reaching the storage throws [SecurityError] when access is denied; a
    [setItem] on a full storage throws [QuotaExceededError].  A throwing
    call leaves the stored items as they were.  Every attempt to write is
    recorded with its time, whether or not it throws. *)

Definition localStorage_getItem (key : string) : js (option string) :=
  fun w =>
    if storage_denied w then (Throw SecurityError, w)
    else (Normal (localStorage w !! key), w).

Definition localStorage_setItem (key value : string) : js unit :=
  fun w =>
    let w := set_setItem_calls ((now w, value) :: setItem_calls w) w in
    if storage_denied w then (Throw SecurityError, w)
    else if storage_full w then (Throw QuotaExceededError, w)
    else (Normal tt, set_localStorage (<[key := value]> (localStorage w)) w).

Definition localStorage_removeItem (key : string) : js unit :=
  fun w =>
    if storage_denied w then (Throw SecurityError, w)
    else (Normal tt, set_localStorage (delete key (localStorage w)) w).

(** ** Timers and the document's keydown listener *)

Definition window_setTimeout (closure : JS.number) (delay : nat) : js nat :=
  fun w =>
    let id := next_timer_id w in
    let t := {| timer_id := id; timer_due := (now w + delay)%nat;
                timer_closure := closure |} in
    (Normal id, set_next_timer_id (S id) (set_timers (timers w ++ [t]) w)).

Definition window_clearTimeout (id : nat) : js unit :=
  modify (fun w =>
    set_timers (filter (fun t => timer_id t ≠ id) (timers w)) w).

Definition document_addEventListener : js unit :=
  modify (set_keydown_attached true).

Definition document_removeEventListener : js unit :=
  modify (set_keydown_attached false).

(** A freshly loaded page: the storage as the previous sessions left it,
    no component, no timers, no listener. *)
Definition page (storage : gmap string string) (denied full : bool)
    (t0 : nat) : world :=
  {| count := S754_zero false; history := []; step := S754_zero false;
     isSaving := false; stepRef := S754_zero false; saveTimerRef := None;
     isUnmountedRef := false; mounted := false;
     localStorage := storage; storage_denied := denied;
     storage_full := full;
     now := t0; timers := []; next_timer_id := 1%nat;
     keydown_attached := false;
     setItem_calls := []; setIsSaving_calls := [] |}.

End Runtime.

(* ================================================================== *)
(** * The component                                                    *)
(* ================================================================== *)

Module AdvancedCounter.
Import Runtime.
Local Open Scope js_scope.

Definition STORAGE_KEY : string := "advanced-counter-count".

Definition zero : JS.number := JS.of_Z 0.
Definition one : JS.number := JS.of_Z 1.

(** ** State initializers *)

(** [useState<number>(() => { try { raw = getItem(KEY); return raw !==
    null ? Number(raw) : 0 } catch { return 0 } })] *)
Definition initial_count : js JS.number :=
  try_catch
    (raw <- localStorage_getItem STORAGE_KEY ;;
     ret (match raw with Some r => JS.Number r | None => zero end))
    (fun _ => ret zero).

Definition initial_history : js (list JS.number) :=
  try_catch
    (raw <- localStorage_getItem STORAGE_KEY ;;
     let initial := match raw with Some r => JS.Number r | None => zero end in
     ret [initial])
    (fun _ => ret [zero]).

(** ** Effects *)

(** [useEffect(() => { stepRef.current = step }, [step])] *)
Definition stepRef_effect : js unit :=
  step <- gets step ;;
  modify (set_stepRef step).

(** The updater handed to [setHistory] by the history effect. *)
Definition record_count (count : JS.number) (prev : list JS.number)
    : list JS.number :=
  match last prev with
  | Some l => if JS.strict_eq l count then prev else prev ++ [count]
  | None => prev ++ [count]
  end.

(** [useEffect(() => { setHistory(prev => ...) }, [count])] *)
Definition history_effect : js unit :=
  count <- gets count ;;
  setHistory (record_count count).

(** [if (saveTimerRef.current !== null) { clearTimeout(...);
    saveTimerRef.current = null }] *)
Definition clear_save_timer : js unit :=
  t <- gets saveTimerRef ;;
  match t with
  | Some id => window_clearTimeout id ;; modify (set_saveTimerRef None)
  | None => ret tt
  end.

(** The callback of the debounced save, closed over [count]. *)
Definition save_callback (count : JS.number) : js unit :=
  unmounted <- gets isUnmountedRef ;;
  if unmounted then ret tt
  else
    try_finally
      (try_catch
         (localStorage_setItem STORAGE_KEY (JS.String count))
         (fun _ => ret tt))
      (unmounted <- gets isUnmountedRef ;;
       when (negb unmounted) (setIsSaving false)) ;;
    modify (set_saveTimerRef None).

Definition delay : nat := 400.

(** The body of the save effect, [useEffect(..., [count])]. *)
Definition save_effect : js unit :=
  count <- gets count ;;
  modify (set_isUnmountedRef false) ;;
  clear_save_timer ;;
  setIsSaving true ;;
  timerId <- window_setTimeout count delay ;;
  modify (set_saveTimerRef (Some timerId)).

(** The cleanup returned by the save effect. *)
Definition save_effect_cleanup : js unit :=
  clear_save_timer ;;
  unmounted <- gets isUnmountedRef ;;
  when (negb unmounted) (setIsSaving false).

(** The cleanup of the unmount-tracking effect, [useEffect(..., [])]. *)
Definition unmount_effect_cleanup : js unit :=
  modify (set_isUnmountedRef true) ;;
  clear_save_timer.

(** The keydown listener; it is created once, at mount, and reads
    [stepRef.current] when it runs. *)
Definition onKeyDown (key : string) : js unit :=
  if String.eqb key "ArrowUp" then
    current <- gets stepRef ;;
    setCount (fun c => JS.add c current)
  else if String.eqb key "ArrowDown" then
    current <- gets stepRef ;;
    setCount (fun c => JS.sub c current)
  else ret tt.

(** ** Handlers *)

Definition increment : js unit :=
  step <- gets step ;;
  setCount (fun c => JS.add c step).

Definition decrement : js unit :=
  step <- gets step ;;
  setCount (fun c => JS.sub c step).

Definition reset : js unit :=
  setCount (fun _ => zero) ;;
  setHistory (fun _ => []) ;;
  try_catch (localStorage_removeItem STORAGE_KEY) (fun _ => ret tt).

Definition handleStepChange (value : string) : js unit :=
  let parsed := JS.Number value in
  if negb (JS.Number_isFinite parsed) || JS.Number_isNaN parsed then
    setStep one
  else
    let normalized := if JS.strict_eq parsed zero then one else parsed in
    setStep normalized.

(** ** Rendering

    After a handler or callback has updated the state, React renders and
    commits, then runs the passive effects whose dependencies changed
    (by [Object.is]): first the cleanups of those effects, then their
    bodies, in the order the hooks are declared.  The state updates the
    effects make ([setHistory], [setIsSaving]) change neither [count] nor
    [step], so the render they cause runs no further effect. *)
Definition commit (prev_count prev_step : JS.number) : js unit :=
  count <- gets count ;;
  step <- gets step ;;
  let count_changed := negb (JS.Object_is prev_count count) in
  let step_changed := negb (JS.Object_is prev_step step) in
  when count_changed save_effect_cleanup ;;
  when step_changed stepRef_effect ;;
  when count_changed history_effect ;;
  when count_changed save_effect.

Definition update (action : js unit) : js unit :=
  prev_count <- gets count ;;
  prev_step <- gets step ;;
  action ;;
  commit prev_count prev_step.

(** Mounting: the initializers run during the first render, then every
    effect runs once, in declaration order. *)
Definition mount : js unit :=
  count <- initial_count ;;
  history <- initial_history ;;
  modify (fun w =>
    set_mounted true
      (set_isUnmountedRef false (set_saveTimerRef None (set_stepRef one
        (set_isSaving false (set_step one
          (set_history history (set_count count w)))))))) ;;
  stepRef_effect ;;
  history_effect ;;
  save_effect ;;
  document_addEventListener.

(** Unmounting: React detaches the component, then runs the cleanups in
    declaration order. *)
Definition unmount : js unit :=
  modify (set_mounted false) ;;
  save_effect_cleanup ;;
  unmount_effect_cleanup ;;
  document_removeEventListener.

(** ** The event loop *)

Inductive event :=
| Click_increment
| Click_decrement
| Click_reset
| Change_step (value : string)
| KeyDown (key : string)
| Tick                                   (* one millisecond passes *)
| Unmount
| Storage_fault (denied full : bool).    (* the storage starts or stops failing *)

(** Runs the callbacks of the timers in [due] that are still pending. *)
Fixpoint run_timers (due : list timer) : js unit :=
  match due with
  | [] => ret tt
  | t :: rest =>
      pending <- gets timers ;;
      (if bool_decide (timer_id t ∈ map timer_id pending) then
         window_clearTimeout (timer_id t) ;;
         update (save_callback (timer_closure t))
       else ret tt) ;;
      run_timers rest
  end.

Definition tick : js unit :=
  modify (fun w => set_now (S (now w)) w) ;;
  w <- gets id ;;
  run_timers (filter (fun t => timer_due t ≤ now w)%nat (timers w)).

(** The buttons and the step input exist while the component is mounted;
    key events reach [onKeyDown] while it is registered. *)
Definition dispatch (ev : event) : js unit :=
  match ev with
  | Click_increment => m <- gets mounted ;; when m (update increment)
  | Click_decrement => m <- gets mounted ;; when m (update decrement)
  | Click_reset => m <- gets mounted ;; when m (update reset)
  | Change_step value =>
      m <- gets mounted ;; when m (update (handleStepChange value))
  | KeyDown key =>
      a <- gets keydown_attached ;; when a (update (onKeyDown key))
  | Tick => tick
  | Unmount => m <- gets mounted ;; when m unmount
  | Storage_fault denied full =>
      modify (fun w => set_storage_full full (set_storage_denied denied w))
  end.

Definition exec (ev : event) (w : world) : world := snd (dispatch ev w).

Definition run (evs : list event) (w : world) : world :=
  fold_left (fun w ev => exec ev w) evs w.

(** A session starts by mounting the component on a fresh page. *)
Definition start (storage : gmap string string) (denied full : bool)
    (t0 : nat) : world :=
  snd (mount (page storage denied full t0)).

Inductive reachable : world -> Prop :=
| reachable_start storage denied full t0 :
    reachable (start storage denied full t0)
| reachable_exec w ev : reachable w -> reachable (exec ev w).

End AdvancedCounter.



(* ================================================================== *)
(** * The first-step component                                         *)
(* ================================================================== *)

Module CoreCounter.

Record state := {
  count : JS.number;
  history : list JS.number
}.

(** [useState(0)] and [useState<number[]>([])]. *)
Definition initial : state := {| count := JS.of_Z 0; history := [] |}.

(** [setCount(newCount); setHistory(prev => [...prev, newCount])] *)
Definition updateCount (newCount : JS.number) (s : state) : state :=
  {| count := newCount; history := (history s ++ [newCount])%list |}.

Inductive button := Decrement | Increment.

Definition onClick (b : button) (s : state) : state :=
  match b with
  | Decrement => updateCount (JS.sub (count s) (JS.of_Z 1)) s
  | Increment => updateCount (JS.add (count s) (JS.of_Z 1)) s
  end.

Definition run (bs : list button) (s : state) : state :=
  fold_left (fun s b => onClick b s) bs s.

End CoreCounter.

(* ================================================================== *)
(** * What the component renders                                       *)
(* ================================================================== *)

Module View.
Import Runtime AdvancedCounter.

(** The history block: the "No history yet." line, or the numbered list
    with, for each entry, its React key and its text. *)
Inductive history_block :=
| No_history_yet
| Numbered (items : list (string * string)).

Record view := {
  current_count : string;       (* [{count}] *)
  decrement_label : string;     (* [aria-label] of the Decrement button *)
  increment_label : string;     (* [aria-label] of the Increment button *)
  step_value : string;          (* [value={step}] of the step input *)
  saving_line : string;
  history_lines : history_block
}.

(** [history.map((h, idx) => <li key={`${h}-${idx}`}>{h}</li>)], from
    index [idx] on. *)
Fixpoint items (idx : nat) (history : list JS.number)
    : list (string * string) :=
  match history with
  | [] => []
  | h :: rest =>
      (JS.String h ++ "-" ++ JS.dec (Z.of_nat idx), JS.String h)
      :: items (S idx) rest
  end.

Definition render (w : world) : view :=
  {| current_count := JS.String (count w);
     decrement_label := "Decrement by " ++ JS.String (step w);
     increment_label := "Increment by " ++ JS.String (step w);
     step_value := JS.String (step w);
     saving_line := if isSaving w then "Saving..." else "Changes saved.";
     history_lines :=
       match history w with
       | [] => No_history_yet
       | _ => Numbered (items 0 (history w))
       end |}.

End View.

(* ================================================================== *)
(** * Vocabulary of the properties                                     *)
(* ================================================================== *)

Import Runtime AdvancedCounter.
Local Open Scope js_scope.
Local Open Scope nat_scope.

(** ** Well-formed worlds

    While the component is mounted the liveness flag is down, the keydown
    listener is registered, the side reference holds the current step, and
    at most one save is pending: the one [saveTimerRef] names, closed over
    the current count and due within [delay].  Once it is unmounted nothing
    is pending and the listener is gone. *)

Definition pending_ok (w : world) : Prop :=
  match saveTimerRef w, timers w with
  | None, [] => True
  | Some id, [t] =>
      timer_id t = id /\ timer_closure t = count w /\
      now w < timer_due t <= now w + delay
  | _, _ => False
  end.

Definition wf (w : world) : Prop :=
  if mounted w then
    isUnmountedRef w = false /\ keydown_attached w = true /\
    stepRef w = step w /\ pending_ok w
  else
    isUnmountedRef w = true /\ keydown_attached w = false /\
    saveTimerRef w = None /\ timers w = [].

(** The world after the pending save [t] has fired. *)
Definition fired (t : timer) (w : world) : world :=
  let ok := negb (storage_denied w) && negb (storage_full w) in
  let value := JS.String (timer_closure t) in
  set_saveTimerRef None
    (set_isSaving false
      (set_setIsSaving_calls (false :: setIsSaving_calls w)
        (set_localStorage
           (if ok then <[STORAGE_KEY := value]> (localStorage w)
            else localStorage w)
           (set_setItem_calls ((S (now w), value) :: setItem_calls w)
              (set_timers [] (set_now (S (now w)) w)))))).

(** The world after a well-formed, mounted component has been unmounted. *)
Definition unmounted (w : world) : world :=
  set_keydown_attached false
    (set_isUnmountedRef true
      (set_setIsSaving_calls (false :: setIsSaving_calls w)
        (set_saveTimerRef None (set_timers [] (set_mounted false w))))).

(** ** Time and bursts of changes *)

(** [n] milliseconds pass. *)
Definition wait (n : nat) (w : world) : world := run (repeat Tick n) w.

(** The event changes Count (as React sees it, by [Object.is]). *)
Definition changes_count (ev : event) (w : world) : bool :=
  negb (JS.Object_is (count w) (count (exec ev w))).

(** A burst: each entry is a change of Count that comes less than one
    quiet interval after the change before it. *)
Fixpoint quiet_burst (w : world) (l : list (nat * event)) : bool :=
  match l with
  | [] => true
  | (gap, ev) :: rest =>
      (gap <? delay) && changes_count ev (wait gap w)
      && quiet_burst (exec ev (wait gap w)) rest
  end.

Fixpoint run_burst (l : list (nat * event)) (w : world) : world :=
  match l with
  | [] => w
  | (gap, ev) :: rest => run_burst rest (exec ev (wait gap w))
  end.

(** The state right after a change of Count: exactly one save is pending,
    for the current count, due one quiet interval from now. *)
Definition just_changed (w : world) : Prop :=
  wf w /\ mounted w = true /\
  exists id, timers w =
    [{| timer_id := id; timer_due := now w + delay;
        timer_closure := count w |}].

(** ** Sessions *)

(** The values Count holds along a run, in order. *)
Fixpoint counts_along (w : world) (evs : list event) : list JS.number :=
  count w ::
  match evs with
  | [] => []
  | ev :: rest => counts_along (exec ev w) rest
  end.

(** The page is loaded again: a new session starts on the storage the
    previous one left behind. *)
Definition reload (w : world) : world :=
  start (localStorage w) (storage_denied w) (storage_full w) (now w).

(** The start of the session that follows the sessions [ss]. *)
Fixpoint sessions (w : world) (ss : list (list event)) : world :=
  match ss with
  | [] => w
  | evs :: rest => sessions (reload (run evs w)) rest
  end.

(** The values Count held during the sessions [ss] and then during the
    events [evs] of the current session. *)
Fixpoint counts_held (w : world) (ss : list (list event)) (evs : list event)
    : list JS.number :=
  match ss with
  | [] => counts_along w evs
  | s :: rest =>
      (counts_along w s ++ counts_held (reload (run s w)) rest evs)%list
  end.

(** ** History *)



(** ** Integers as numbers *)

(** [p * 2^k], as the shifts of [SpecFloat] compute it. *)
Definition shl (p : positive) (k : Z) : positive :=
  match k with
  | Zpos n => Pos.iter xO p n
  | _ => p
  end.

(** The representation of the integer [(-1)^s * p], for [p] below [2^53]:
    a 53-bit mantissa. *)
Definition canonical (s : bool) (p : positive) : JS.number :=
  let d := Zpos (digits2_pos p) in
  S754_finite s (shl p (53 - d)) (d - 53).

Definition signed (s : bool) (p : positive) : Z := cond_Zopp s (Zpos p).

(** Integers of magnitude below [2^53]. *)
Definition safe (z : Z) : Prop := (Z.abs z < 2 ^ 53)%Z.

(** Increments minus decrements. *)
Fixpoint net (ops : list event) : Z :=
  match ops with
  | [] => 0
  | Click_increment :: rest => 1 + net rest
  | Click_decrement :: rest => -1 + net rest
  | _ :: rest => net rest
  end.

Definition is_click (ev : event) : bool :=
  match ev with
  | Click_increment | Click_decrement => true
  | _ => false
  end.

(* ================================================================== *)
(** * Further vocabulary: invariants of the reachable states           *)
(* ================================================================== *)

(** The step is a finite number other than zero. *)
Definition step_ok (w : world) : Prop :=
  JS.Number_isFinite (step w) = true /\ JS.strict_eq (step w) zero = false.

(** The Saving flag is up exactly while a save is pending. *)
Definition saving_ok (w : world) : Prop :=
  mounted w = true ->
  isSaving w = match timers w with [] => false | _ => true end.

(** History ends at the current count (two NaN count as the same entry);
    it is empty only while the count is 0. *)
Definition history_ok (w : world) : Prop :=
  match last (history w) with
  | None => count w = zero
  | Some l =>
      JS.strict_eq l (count w) = true \/ (l = JS.NaN /\ count w = JS.NaN)
  end.

(** The event changes how the storage behaves. *)
Definition is_fault (ev : event) : bool :=
  match ev with Storage_fault _ _ => true | _ => false end.

(** ** The two components side by side *)

(** The button of the final component that stands for a button of the
    first-step one. *)
Definition click_event (b : CoreCounter.button) : event :=
  match b with
  | CoreCounter.Decrement => Click_decrement
  | CoreCounter.Increment => Click_increment
  end.

(** Increments minus decrements. *)
Fixpoint core_net (bs : list CoreCounter.button) : Z :=
  match bs with
  | [] => 0
  | CoreCounter.Increment :: rest => 1 + core_net rest
  | CoreCounter.Decrement :: rest => -1 + core_net rest
  end.

(** ** React keys of the history items *)

(** The text after the last dash of [s], or [acc] when [s] has none. *)
Fixpoint after_last_dash (acc s : string) : string :=
  match s with
  | EmptyString => acc
  | String c rest =>
      if Ascii.eqb c "-" then after_last_dash rest rest
      else after_last_dash acc rest
  end.

(** No dash occurs in [s]. *)
Fixpoint dash_free (s : string) : bool :=
  match s with
  | EmptyString => true
  | String c rest => negb (Ascii.eqb c "-") && dash_free rest
  end.


(* ================================================================== *)
(** * Properties                                                       *)
(* ================================================================== *)

(** ** Numbers *)

Lemma Object_is_refl (x : JS.number) : JS.Object_is x x = true.
Proof.
  destruct x as [s|s| |s m e]; cbn; try (destruct s; reflexivity); trivial.
  rewrite Pos.eqb_refl, Z.eqb_refl. destruct s; reflexivity.
Qed.

Lemma Object_is_eq (x y : JS.number) : JS.Object_is x y = true -> x = y.
Proof.
  destruct x as [s|s| |s m e], y as [s'|s'| |s' m' e']; cbn; try discriminate;
    try (destruct s, s'; cbn; congruence); trivial.
  intros H. apply andb_prop in H as [H He]. apply andb_prop in H as [Hs Hm].
  apply Pos.eqb_eq in Hm. apply Z.eqb_eq in He.
  destruct s, s'; cbn in Hs; congruence.
Qed.

(** [x === x] fails only for NaN. *)
Lemma strict_eq_refl (x : JS.number) :
  x <> JS.NaN -> JS.strict_eq x x = true.
Proof.
  unfold JS.NaN.
  destruct x as [s|s| |s m e]; intros Hx; try reflexivity; try congruence.
  - destruct s; reflexivity.
  - cbv [JS.strict_eq SFeqb SFcompare].
    destruct s; rewrite Z.compare_refl, Pos.compare_cont_refl; reflexivity.
Qed.

(** ** Unfolding computations

    The computations are evaluated by value on a world given field by
    field, so a world is taken apart before [unfold_js] is called. *)

Ltac destruct_world w :=
  let c := fresh "c" in let h := fresh "h" in let s := fresh "s" in
  destruct w as [c h s ? ? ? ? ? ? ? ? ? ? ? ? ? ?].

Ltac unfold_js :=
  cbv beta iota zeta delta
    [dispatch exec update commit tick mount unmount start page
     increment decrement reset handleStepChange onKeyDown
     stepRef_effect history_effect save_effect save_effect_cleanup
     unmount_effect_cleanup clear_save_timer save_callback
     initial_count initial_history
     setCount setHistory setStep setIsSaving
     localStorage_getItem localStorage_setItem localStorage_removeItem
     window_setTimeout window_clearTimeout
     document_addEventListener document_removeEventListener
     bind ret throw try_catch try_finally gets modify when
     set_count set_history set_step set_isSaving set_stepRef
     set_saveTimerRef set_isUnmountedRef set_mounted set_localStorage
     set_storage_denied set_storage_full set_now set_timers
     set_next_timer_id set_keydown_attached set_setItem_calls
     set_setIsSaving_calls
     count history step isSaving stepRef saveTimerRef isUnmountedRef
     mounted localStorage storage_denied storage_full now timers
     next_timer_id keydown_attached setItem_calls setIsSaving_calls
     fst snd negb andb orb].

(** Symbolic execution: evaluate as far as possible, then split on the
    innermost condition the evaluation is stuck on, and repeat. *)
Ltac js_cases :=
  repeat (unfold_js;
    match goal with
    | |- context [JS.Object_is ?x ?x] => rewrite (Object_is_refl x)
    | |- context [if ?b then _ else _] =>
        lazymatch b with
        | context [if _ then _ else _] => fail
        | context [match _ with _ => _ end] => fail
        | _ => destruct b eqn:?
        end
    | |- context [match ?o with Some _ => _ | None => _ end] =>
        lazymatch o with
        | context [if _ then _ else _] => fail
        | context [match _ with _ => _ end] => fail
        | _ => destruct o eqn:?
        end
    end);
  unfold_js.

(** Names the world an event leads to, executes the event once, and
    substitutes the result. *)
Ltac run_event :=
  match goal with
  | |- context [exec ?ev ?w] =>
      let w' := fresh "w'" in
      let E := fresh "E" in
      remember (exec ev w) as w' eqn:E; revert E;
      js_cases; intros ->
  end.

(** ** One millisecond passes *)

Lemma filter_own_timer (t : timer) :
  filter (fun t0 : timer => timer_id t0 <> timer_id t) [t] = [].
Proof.
  cbn. rewrite decide_False by (intros H; apply H; reflexivity). reflexivity.
Qed.

Lemma tick_idle w :
  timers w = [] -> tick w = (Normal tt, set_now (S (now w)) w).
Proof. destruct_world w. cbn. intros ->. reflexivity. Qed.

Lemma tick_waiting w t :
  timers w = [t] -> S (now w) < timer_due t ->
  tick w = (Normal tt, set_now (S (now w)) w).
Proof.
  destruct_world w. cbn. intros -> Hd.
  unfold tick, bind, modify, gets. cbn.
  destruct (decide _); [lia|]. reflexivity.
Qed.

Lemma tick_fire w t :
  timers w = [t] -> timer_due t <= S (now w) ->
  isUnmountedRef w = false -> mounted w = true ->
  tick w = (Normal tt, fired t w).
Proof.
  destruct_world w. cbn. intros -> Hd -> ->.
  unfold tick, bind, modify, gets. cbn.
  destruct (decide _); [|lia]. cbn.
  rewrite bool_decide_true by set_solver. unfold fired.
  pose proof (filter_own_timer t) as Hf.
  js_cases; rewrite ?Hf; reflexivity.
Qed.

(** ** The invariant *)

Lemma wf_start storage denied full t0 : wf (start storage denied full t0).
Proof.
  unfold wf, pending_ok. unfold_js.
  destruct denied; cbn; unfold delay; repeat split; try lia.
Qed.


Ltac wf_finish :=
  unfold delay in *;
  repeat match goal with
    | H : JS.Object_is _ _ = true |- _ => apply Object_is_eq in H
    end;
  rewrite ?filter_own_timer; cbn -[zero one];
  repeat split; try congruence; try lia.

Lemma wf_exec_mounted ev w :
  ev <> Tick -> mounted w = true -> wf w -> wf (exec ev w).
Proof.
  intros Hev Hm. unfold wf at 1. rewrite Hm.
  intros (Hu & Hk & Hs & Hp). unfold pending_ok in Hp.
  destruct_world w. cbn in *. subst.
  destruct saveTimerRef0, timers0 as [|t [|]]; try contradiction;
    [destruct Hp as (? & ? & ?); subst|];
    (destruct ev; [| | | | | congruence | |]);
    run_event; unfold wf, pending_ok; wf_finish.
Qed.

Lemma wf_exec_unmounted ev w :
  mounted w = false -> wf w ->
  exec ev w =
    match ev with
    | Tick => set_now (S (now w)) w
    | Storage_fault denied full =>
        set_storage_full full (set_storage_denied denied w)
    | _ => w
    end.
Proof.
  intros Hm. unfold wf. rewrite Hm. intros (Hu & Hk & Hs & Ht).
  destruct ev; destruct_world w; cbn in *; subst; reflexivity.
Qed.

Lemma wf_exec ev w : wf w -> wf (exec ev w).
Proof.
  intros Hw. destruct (mounted w) eqn:Hm.
  - assert (ev = Tick \/ ev <> Tick) as [->|Hev]
      by (destruct ev; (left; reflexivity) || (right; discriminate));
      [|apply wf_exec_mounted; assumption].
    pose proof Hw as Hw'. unfold wf in Hw'. rewrite Hm in Hw'.
    destruct Hw' as (Hu & Hk & Hs & Hp). unfold pending_ok in Hp.
    unfold exec, dispatch.
    destruct (saveTimerRef w) eqn:Hr, (timers w) as [|t [|]] eqn:Ht;
      try contradiction.
    + destruct Hp as (Hid & Hc & Hd).
      destruct (decide (timer_due t <= S (now w))).
      * rewrite (tick_fire w t) by assumption.
        destruct_world w; cbn in *; subst. unfold wf, pending_ok. cbn.
        repeat split; congruence.
      * rewrite (tick_waiting w t) by (assumption || lia).
        destruct_world w; cbn in *; subst. unfold wf, pending_ok. cbn.
        repeat split; try congruence; lia.
    + rewrite tick_idle by assumption.
      destruct_world w; cbn in *; subst. unfold wf, pending_ok. cbn.
      repeat split; congruence.
  - rewrite wf_exec_unmounted by assumption.
    unfold wf in *. rewrite Hm in Hw.
    destruct ev; destruct_world w; cbn in *; try rewrite Hm; assumption.
Qed.

Lemma reachable_wf w : reachable w -> wf w.
Proof. induction 1; [apply wf_start | apply wf_exec; assumption]. Qed.


Lemma run_cons ev evs w : run (ev :: evs) w = run evs (exec ev w).
Proof. reflexivity. Qed.

Lemma wf_run evs : forall w, wf w -> wf (run evs w).
Proof.
  induction evs as [|ev evs IH]; intros w Hw; [exact Hw|].
  rewrite run_cons. apply IH, wf_exec, Hw.
Qed.

Lemma reachable_run evs : forall w, reachable w -> reachable (run evs w).
Proof.
  induction evs as [|ev evs IH]; intros w Hw; [exact Hw|].
  rewrite run_cons. apply IH, reachable_exec, Hw.
Qed.
(* ================================================================== *)
(** * Initial load and storage failures                                *)
(* ================================================================== *)

Lemma initial_count_spec (w : world) :
  initial_count w =
    (Normal (if storage_denied w then zero
             else match localStorage w !! STORAGE_KEY with
                  | Some raw => JS.Number raw
                  | None => zero
                  end), w).
Proof. destruct_world w. js_cases; reflexivity. Qed.

Lemma initial_history_spec (w : world) :
  initial_history w =
    (Normal [if storage_denied w then zero
             else match localStorage w !! STORAGE_KEY with
                  | Some raw => JS.Number raw
                  | None => zero
                  end], w).
Proof. destruct_world w. js_cases; reflexivity. Qed.

(** C10.  When the read succeeds, the initial Count is [Number(raw)] of
    whatever string is stored: [NaN] for text that is not a number, not
    the default.  The default 0 is used only when the key is absent or the
    read throws.  The history initializer seeds the same value. *)
Theorem initial_count_coerces_stored_string :
  (forall w,
     let v := if storage_denied w then zero
              else match localStorage w !! STORAGE_KEY with
                   | Some raw => JS.Number raw
                   | None => zero
                   end in
     initial_count w = (Normal v, w) /\ initial_history w = (Normal [v], w))
  /\ (forall storage denied full t0,
        count (start storage denied full t0) =
          if denied then zero
          else match storage !! STORAGE_KEY with
               | Some raw => JS.Number raw
               | None => zero
               end)
  /\ JS.Number "abc" = JS.NaN
  /\ count (start (<[STORAGE_KEY := "abc"]> ∅) false false 0) = JS.NaN
  /\ JS.NaN <> zero.
Proof.
  split; [|split; [|split; [|split]]].
  - intros w v. split; [apply initial_count_spec | apply initial_history_spec].
  - intros storage denied full t0. unfold start, page.
    js_cases; reflexivity.
  - vm_compute. reflexivity.
  - vm_compute. reflexivity.
  - discriminate.
Qed.

(** Nothing the component runs can throw: every [try] around a storage
    call has a handler that completes normally. *)

Lemma update_save_callback_total c w :
  exists w', update (save_callback c) w = (Normal tt, w').
Proof. destruct_world w. js_cases; eexists; reflexivity. Qed.

Lemma run_timers_total due :
  forall w, exists w', run_timers due w = (Normal tt, w').
Proof.
  induction due as [|t rest IH]; intros w; [eexists; reflexivity|].
  cbn [run_timers]. unfold bind at 1, gets at 1. unfold bind at 1.
  destruct (bool_decide _).
  - unfold bind at 1, window_clearTimeout, modify.
    destruct (update_save_callback_total (timer_closure t)
      (set_timers (filter (fun t0 => timer_id t0 <> timer_id t) (timers w)) w))
      as [w' ->].
    apply IH.
  - unfold ret at 1. apply IH.
Qed.

Lemma dispatch_total ev w : exists w', dispatch ev w = (Normal tt, w').
Proof.
  destruct ev; try (destruct_world w; js_cases; eexists; reflexivity).
  unfold dispatch, tick, bind, modify, gets. apply run_timers_total.
Qed.

Lemma mount_total w : exists w', mount w = (Normal tt, w').
Proof. destruct_world w. js_cases; eexists; reflexivity. Qed.

(** C9.  Storage failures never leave the component.  A failing read
    makes both initializers fall back to 0.  A failing write (access
    denied or quota exceeded) is caught inside the save callback, which
    still completes normally and clears the Saving flag, exactly as when
    the write commits; the stored items are then left as they were.  No
    event, and not mounting either, ever completes with an exception. *)
Theorem storage_failures_are_swallowed :
  (forall w, storage_denied w = true ->
     initial_count w = (Normal zero, w) /\
     initial_history w = (Normal [zero], w))
  /\ (forall storage full t0, count (start storage true full t0) = zero)
  /\ (forall c w,
        storage_denied w = true \/ storage_full w = true ->
        isUnmountedRef w = false -> mounted w = true ->
        exists w',
          save_callback c w = (Normal tt, w') /\
          isSaving w' = false /\ localStorage w' = localStorage w)
  /\ (forall c w,
        storage_denied w = false -> storage_full w = false ->
        isUnmountedRef w = false -> mounted w = true ->
        exists w',
          save_callback c w = (Normal tt, w') /\
          isSaving w' = false /\
          localStorage w' = <[STORAGE_KEY := JS.String c]> (localStorage w))
  /\ (forall ev w, fst (dispatch ev w) = Normal tt)
  /\ (forall w, fst (mount w) = Normal tt).
Proof.
  split; [|split; [|split; [|split; [|split]]]].
  - intros w Hd. rewrite initial_count_spec, initial_history_spec, Hd.
    split; reflexivity.
  - intros storage full t0. unfold start, page. js_cases; reflexivity.
  - intros c w Hf Hu Hm. destruct_world w. cbn in *. subst.
    destruct Hf; subst; js_cases; eexists; repeat split.
  - intros c w Hd Hf Hu Hm. destruct_world w. cbn in *. subst.
    js_cases; eexists; repeat split.
  - intros ev w. destruct (dispatch_total ev w) as [w' ->]. reflexivity.
  - intros w. destruct (mount_total w) as [w' ->]. reflexivity.
Qed.

Lemma storage_failures_are_swallowed_witness :
  count (start ∅ true false 0) = zero
  /\ (let w := start ∅ false true 0 in
      exists w', save_callback zero w = (Normal tt, w') /\
                 isSaving w' = false /\ localStorage w' = localStorage w)
  /\ initial_count (page ∅ true false 0) = (Normal zero, page ∅ true false 0).
Proof.
  destruct storage_failures_are_swallowed as (Hread & Hstart & Hfail & _).
  split; [apply Hstart|]. split.
  - apply Hfail; [right; reflexivity | reflexivity | reflexivity].
  - apply Hread. reflexivity.
Defined.

(* ================================================================== *)
(** * The step                                                         *)
(* ================================================================== *)

Lemma handleStepChange_step raw w :
  mounted w = true ->
  let parsed := JS.Number raw in
  step (exec (Change_step raw) w) =
    (if JS.Number_isFinite parsed && negb (JS.strict_eq parsed zero)
     then parsed else one).
Proof.
  intros Hm parsed. subst parsed.
  destruct_world w. cbn in Hm. subst.
  run_event; cbn; try reflexivity.
  all: destruct (JS.Number raw); discriminate.
Qed.

(** C6, as stated, fails: the step set from "-3" is -3 and the step set
    from "2.5" is 2.5; neither is a positive integer. *)
Lemma step_change_accepts_negative_and_fractional :
  let w := start ∅ false false 0 in
  step (exec (Change_step "-3") w) = JS.of_Z (-3)
  /\ JS.is_positive_integer (step (exec (Change_step "-3") w)) = false
  /\ JS.String (step (exec (Change_step "2.5") w)) = "2.5"
  /\ JS.is_positive_integer (step (exec (Change_step "2.5") w)) = false.
Proof. vm_compute. repeat split. Qed.

(** C6, amended.  For every raw string the step-setting operation
    completes without an error and leaves a finite, non-zero step: the
    number [Number(raw)] itself when that is finite and not zero (it may
    be negative or fractional), and 1 otherwise. *)
Theorem step_is_finite_and_nonzero raw w :
  mounted w = true ->
  let parsed := JS.Number raw in
  let w' := exec (Change_step raw) w in
  fst (dispatch (Change_step raw) w) = Normal tt
  /\ step w' =
       (if JS.Number_isFinite parsed && negb (JS.strict_eq parsed zero)
        then parsed else one)
  /\ JS.Number_isFinite (step w') = true
  /\ JS.strict_eq (step w') zero = false.
Proof.
  intros Hm parsed w'. subst w'.
  split; [destruct (dispatch_total (Change_step raw) w) as [? ->]; reflexivity|].
  rewrite (handleStepChange_step raw w Hm). fold parsed.
  split; [reflexivity|].
  destruct (JS.Number_isFinite parsed) eqn:Hf; cbn [andb];
    [|split; reflexivity].
  destruct (JS.strict_eq parsed zero) eqn:Hz; cbn [negb];
    split; assumption || reflexivity.
Qed.

Lemma step_is_finite_and_nonzero_witness :
  let w' := exec (Change_step "0") (start ∅ false false 0) in
  step w' = one
  /\ JS.Number_isFinite (step w') = true
  /\ JS.strict_eq (step w') zero = false.
Proof.
  destruct (step_is_finite_and_nonzero "0" (start ∅ false false 0) eq_refl)
    as (_ & Hs & Hf & Hz).
  split; [exact Hs | split; assumption].
Defined.

(** The listener reads the side reference when it runs, and the side
    reference holds the current step in every well-formed world. *)

Ltac absurd_key :=
  try match goal with
    | H : String.eqb _ _ = _ |- _ => vm_compute in H; discriminate H
    end.

Lemma key_up_down w :
  wf w -> mounted w = true ->
  count (exec (KeyDown "ArrowUp") w) = JS.add (count w) (step w)
  /\ count (exec (KeyDown "ArrowDown") w) = JS.sub (count w) (step w).
Proof.
  intros Hw Hm. unfold wf in Hw. rewrite Hm in Hw.
  destruct Hw as (Hu & Hk & Hs & _).
  destruct_world w. cbn in *. subst.
  split; run_event; absurd_key; reflexivity.
Qed.

Lemma change_step_frame raw w :
  mounted (exec (Change_step raw) w) = mounted w
  /\ count (exec (Change_step raw) w) = count w.
Proof. destruct_world w. split; run_event; reflexivity. Qed.

(** C7.  In every reachable state of a mounted component, "ArrowUp" adds
    and "ArrowDown" subtracts the step that is current when the key is
    dispatched; in particular a key pressed right after a step change uses
    the new step, and after setting the step to "5" one "ArrowUp" adds 5. *)
Theorem keyboard_uses_current_step w :
  reachable w -> mounted w = true ->
  count (exec (KeyDown "ArrowUp") w) = JS.add (count w) (step w)
  /\ count (exec (KeyDown "ArrowDown") w) = JS.sub (count w) (step w)
  /\ (forall raw,
        let w1 := exec (Change_step raw) w in
        count (exec (KeyDown "ArrowUp") w1) = JS.add (count w) (step w1) /\
        count (exec (KeyDown "ArrowDown") w1) = JS.sub (count w) (step w1))
  /\ count (exec (KeyDown "ArrowUp") (exec (Change_step "5") w)) =
       JS.add (count w) (JS.of_Z 5).
Proof.
  intros Hr Hm.
  assert (Hstep : forall raw,
    let w1 := exec (Change_step raw) w in
    count (exec (KeyDown "ArrowUp") w1) = JS.add (count w) (step w1) /\
    count (exec (KeyDown "ArrowDown") w1) = JS.sub (count w) (step w1)).
  { intros raw w1. subst w1.
    destruct (change_step_frame raw w) as [Hm1 Hc1].
    rewrite <- Hc1. apply key_up_down.
    - apply reachable_wf, reachable_exec, Hr.
    - rewrite Hm1. exact Hm. }
  destruct (key_up_down w (reachable_wf w Hr) Hm) as [Hup Hdown].
  repeat split; try assumption; try apply Hstep.
  destruct (Hstep "5") as [H5 _]. rewrite H5.
  rewrite (handleStepChange_step "5" w Hm). reflexivity.
Qed.

Lemma keyboard_uses_current_step_witness :
  let w := start ∅ false false 0 in
  count (exec (KeyDown "ArrowUp") (exec (Change_step "5") w)) = JS.of_Z 5.
Proof.
  destruct (keyboard_uses_current_step (start ∅ false false 0)
              (reachable_start ∅ false false 0) eq_refl) as (_ & _ & _ & H).
  exact H.
Defined.

(* ================================================================== *)
(** * Reset                                                            *)
(* ================================================================== *)

(** C1.  What [reset()] leaves behind once the effects it triggers have
    run: Count is 0 and the key is gone from the store, but History is
    empty only when Count was already 0.  Otherwise the history effect
    runs again for the new count and records it, so History is [[0]]. *)
Theorem reset_reseeds_history w :
  mounted w = true -> storage_denied w = false ->
  let w' := exec Click_reset w in
  count w' = zero
  /\ localStorage w' !! STORAGE_KEY = None
  /\ history w' = (if JS.Object_is (count w) zero then [] else [zero]).
Proof.
  intros Hm Hd w'. subst w'. destruct_world w. cbn in Hm, Hd. subst.
  run_event; cbn; rewrite ?lookup_delete_eq; repeat split.
Qed.

Lemma reset_reseeds_history_witness :
  let w := exec Click_increment (start ∅ false false 0) in
  let w' := exec Click_reset w in
  count w = one
  /\ count w' = zero
  /\ localStorage w' !! STORAGE_KEY = None
  /\ history w' = [zero].
Proof.
  split; [reflexivity|].
  exact (reset_reseeds_history (exec Click_increment (start ∅ false false 0))
           eq_refl eq_refl).
Defined.

(** The count change made by [reset()] also schedules a save: one quiet
    interval later the key is back, holding "0". *)
Lemma reset_value_saved_again :
  let w := run [Click_increment; Click_reset] (start ∅ false false 0) in
  localStorage w !! STORAGE_KEY = None
  /\ localStorage (run (repeat Tick 400) w) !! STORAGE_KEY = Some "0".
Proof. vm_compute. split; reflexivity. Qed.

(* ================================================================== *)
(** * Teardown                                                         *)
(* ================================================================== *)

Lemma exec_unmount w :
  wf w -> mounted w = true -> exec Unmount w = unmounted w.
Proof.
  intros Hw Hm. unfold wf in Hw. rewrite Hm in Hw.
  destruct Hw as (Hu & Hk & Hs & Hp). unfold pending_ok in Hp.
  destruct_world w. cbn in *. subst.
  destruct saveTimerRef0, timers0 as [|t [|]]; try contradiction;
    [destruct Hp as (? & ? & ?); subst|];
    unfold unmounted; run_event; rewrite ?filter_own_timer; reflexivity.
Qed.

(** Once unmounted, the component is inert: whatever happens next reaches
    neither the storage nor the state. *)
Lemma unmounted_stays evs :
  forall w, wf w -> mounted w = false ->
  let w' := run evs w in
  mounted w' = false /\
  localStorage w' = localStorage w /\
  setItem_calls w' = setItem_calls w /\
  isSaving w' = isSaving w /\
  setIsSaving_calls w' = setIsSaving_calls w /\
  count w' = count w /\ history w' = history w.
Proof.
  induction evs as [|ev evs IH]; intros w Hw Hm; [cbn; repeat split; exact Hm|].
  rewrite run_cons. cbn zeta.
  assert (Hm' : mounted (exec ev w) = false).
  { rewrite wf_exec_unmounted by assumption.
    destruct ev; destruct_world w; exact Hm. }
  destruct (IH (exec ev w) (wf_exec ev w Hw) Hm')
    as (H1 & H2 & H3 & H4 & H5 & H6 & H7).
  split; [exact H1|].
  rewrite H2, H3, H4, H5, H6, H7.
  rewrite wf_exec_unmounted by assumption.
  destruct ev; destruct_world w; repeat split.
Qed.

(** The liveness check: with the flag up, the save callback does nothing. *)
Lemma save_callback_suppressed c v :
  isUnmountedRef v = true -> save_callback c v = (Normal tt, v).
Proof. destruct_world v. cbn. intros ->. reflexivity. Qed.

(** C4.  What teardown does, in any reachable state of the mounted
    component.  Unmounting cancels the pending save (no timer is left and
    [saveTimerRef] is null), raises the liveness flag and removes the
    listener, and writes nothing to the store.  But while it is processed
    the cleanup of the save effect calls [setIsSaving(false)] once: the
    liveness flag it tests is raised only by the cleanup that runs after
    it, so its guard is always passed.  Whatever events follow, the store
    is never written, no [setItem] call is made, and that call remains the
    only [setIsSaving] call since teardown began.  And a save callback
    that runs with the liveness flag up returns at once, changing
    nothing. *)
Theorem teardown_updates_saving_flag_once w :
  reachable w -> mounted w = true ->
  let w' := exec Unmount w in
  (timers w' = [] /\ saveTimerRef w' = None /\
   isUnmountedRef w' = true /\ keydown_attached w' = false)
  /\ (localStorage w' = localStorage w /\
      setItem_calls w' = setItem_calls w /\
      setIsSaving_calls w' = false :: setIsSaving_calls w)
  /\ (forall evs,
        let w'' := run evs w' in
        localStorage w'' = localStorage w /\
        setItem_calls w'' = setItem_calls w /\
        setIsSaving_calls w'' = false :: setIsSaving_calls w)
  /\ (forall c v, isUnmountedRef v = true ->
        save_callback c v = (Normal tt, v)).
Proof.
  intros Hr Hm w'. pose proof (reachable_wf w Hr) as Hw.
  assert (Hw' : wf w') by (apply wf_exec, Hw).
  subst w'. rewrite exec_unmount in * by assumption.
  split; [destruct_world w; repeat split|].
  split; [destruct_world w; repeat split|].
  split; [|exact save_callback_suppressed].
  intros evs w''.
  destruct (unmounted_stays evs (unmounted w) Hw')
    as (_ & H2 & H3 & _ & H5 & _); [destruct_world w; reflexivity|].
  subst w''. rewrite H2, H3, H5. destruct_world w; repeat split.
Qed.

(** A change followed at once by teardown: the Saving flag is updated while
    the component is torn down, and a second later nothing has been
    written and no further update was made. *)
Lemma teardown_updates_saving_flag_once_witness :
  let w := exec Click_increment (start ∅ false false 0) in
  let w' := exec Unmount w in
  let w'' := run (repeat Tick 1000) w' in
  setIsSaving_calls w' = false :: setIsSaving_calls w
  /\ localStorage w'' = ∅
  /\ setItem_calls w'' = []
  /\ setIsSaving_calls w'' = false :: setIsSaving_calls w.
Proof.
  assert (Hm : mounted (exec Click_increment (start ∅ false false 0)) = true)
    by reflexivity.
  destruct (teardown_updates_saving_flag_once
              (exec Click_increment (start ∅ false false 0))
              (reachable_exec _ _ (reachable_start ∅ false false 0)) Hm)
    as (_ & (_ & _ & H0) & H & _).
  destruct (H (repeat Tick 1000)) as (H1 & H2 & H3).
  split; [exact H0 | split; [exact H1 | split; [exact H2 | exact H3]]].
Defined.

(* ================================================================== *)
(** * The debounced save                                               *)
(* ================================================================== *)

Lemma wait_S n w : wait (S n) w = wait n (exec Tick w).
Proof. reflexivity. Qed.

Lemma exec_tick_count w : wf w -> count (exec Tick w) = count w.
Proof.
  intros Hw. unfold exec, dispatch. unfold wf in Hw.
  destruct (mounted w) eqn:Hm.
  - destruct Hw as (Hu & Hk & Hs & Hp). unfold pending_ok in Hp.
    destruct (saveTimerRef w) eqn:Hr, (timers w) as [|t [|]] eqn:Ht;
      try contradiction.
    + destruct (decide (timer_due t <= S (now w))).
      * rewrite (tick_fire w t) by assumption. destruct_world w; reflexivity.
      * rewrite (tick_waiting w t) by (assumption || lia).
        destruct_world w; reflexivity.
    + rewrite tick_idle by assumption. destruct_world w; reflexivity.
  - destruct Hw as (_ & _ & _ & Ht). rewrite tick_idle by assumption.
    destruct_world w; reflexivity.
Qed.

Lemma change_schedules ev w :
  wf w -> mounted w = true -> changes_count ev w = true ->
  just_changed (exec ev w) /\
  setItem_calls (exec ev w) = setItem_calls w /\
  now (exec ev w) = now w.
Proof.
  intros Hw Hm Hc.
  assert (Hw' : wf (exec ev w)) by (apply wf_exec, Hw).
  unfold just_changed. revert Hw' Hc. unfold changes_count.
  destruct ev.
  6: { intros _. rewrite exec_tick_count by assumption.
       rewrite Object_is_refl. discriminate. }
  all: unfold wf in Hw; rewrite Hm in Hw;
    destruct Hw as (Hu & Hk & Hs & Hp); unfold pending_ok in Hp;
    destruct_world w; cbn in Hm, Hu, Hk, Hs, Hp; subst;
    destruct saveTimerRef0, timers0 as [|t [|]]; try contradiction;
    try (destruct Hp as (? & ? & ?); subst);
    run_event; absurd_key; rewrite ?filter_own_timer; cbn -[zero one];
    intros Hw' Hc; rewrite ?Object_is_refl in Hc;
    repeat match goal with
      | H : JS.Object_is _ _ = _ |- _ => rewrite H in Hc; clear H
      end;
    try discriminate Hc;
    (split; [split; [exact Hw'|split; [reflexivity|eexists; reflexivity]]
            |split; reflexivity]).
Qed.

Lemma wait_quiet d :
  forall w t, timers w = [t] -> now w + d < timer_due t ->
  wait d w = set_now (now w + d) w.
Proof.
  induction d as [|d IH]; intros w t Ht Hd.
  - destruct_world w. unfold wait. cbn. rewrite Nat.add_0_r. reflexivity.
  - rewrite wait_S. unfold exec at 1, dispatch.
    rewrite (tick_waiting w t) by (assumption || lia). cbn [snd].
    rewrite (IH _ t); destruct_world w; cbn in *; try assumption; try lia.
    unfold set_now; cbn. f_equal. lia.
Qed.

Lemma wait_fires k w t :
  timers w = [t] -> timer_due t = now w + S k ->
  isUnmountedRef w = false -> mounted w = true ->
  wait (S k) w = fired t (set_now (now w + k) w).
Proof.
  intros Ht Hd Hu Hm. unfold wait.
  replace (repeat Tick (S k)) with (repeat Tick k ++ [Tick])%list
    by (cbn [repeat]; rewrite repeat_cons; reflexivity).
  unfold run. rewrite fold_left_app. cbn [fold_left].
  fold (run (repeat Tick k) w). fold (wait k w).
  rewrite (wait_quiet k w t) by (assumption || lia).
  unfold exec, dispatch.
  rewrite (tick_fire _ t); destruct_world w; cbn in *; try assumption; try lia.
  reflexivity.
Qed.

Lemma burst_keeps_one_pending rest :
  forall w, just_changed w -> quiet_burst w rest = true ->
  just_changed (run_burst rest w) /\
  setItem_calls (run_burst rest w) = setItem_calls w.
Proof.
  induction rest as [|[gap ev] rest IH]; intros w Hj Hq; [split; trivial|].
  cbn [quiet_burst run_burst] in *.
  apply andb_prop in Hq as [Hq Hrest]. apply andb_prop in Hq as [Hgap Hc].
  apply Nat.ltb_lt in Hgap.
  destruct Hj as (Hw & Hm & id & Ht).
  assert (Hwait : wait gap w = set_now (now w + gap) w).
  { apply (wait_quiet gap w _ Ht). cbn. lia. }
  assert (Hw1 : wf (wait gap w)) by (apply wf_run, Hw).
  assert (Hm1 : mounted (wait gap w) = true)
    by (rewrite Hwait; destruct_world w; exact Hm).
  destruct (change_schedules ev (wait gap w) Hw1 Hm1 Hc) as (Hj' & Hs' & _).
  destruct (IH _ Hj' Hrest) as (Hj'' & Hs'').
  split; [exact Hj''|].
  rewrite Hs'', Hs', Hwait. destruct_world w; reflexivity.
Qed.

(** C2.  Take any reachable state of the mounted component and a burst
    of Count changes, each less than one quiet interval ([delay], 400)
    after the one before.  During the burst nothing is written, and after
    each change exactly one save is pending: the previous one was
    cancelled, and the new one closes over the new count and is due one
    quiet interval later.  After the last change nothing is written for
    any wait shorter than the interval; after exactly one interval there
    has been one [setItem] call, at that instant, with the last count
    (and, unless the storage fails, that value is what is stored). *)
Theorem debounced_save w ev0 rest :
  reachable w -> mounted w = true ->
  changes_count ev0 w = true ->
  quiet_burst (exec ev0 w) rest = true ->
  let w1 := run_burst rest (exec ev0 w) in
  setItem_calls w1 = setItem_calls w
  /\ (exists id, timers w1 =
        [{| timer_id := id; timer_due := now w1 + delay;
            timer_closure := count w1 |}])
  /\ (forall d, d < delay -> setItem_calls (wait d w1) = setItem_calls w)
  /\ setItem_calls (wait delay w1) =
       (now w1 + delay, JS.String (count w1)) :: setItem_calls w
  /\ (storage_denied w1 = false -> storage_full w1 = false ->
      localStorage (wait delay w1) !! STORAGE_KEY = Some (JS.String (count w1))).
Proof.
  intros Hr Hm Hc Hq w1.
  destruct (change_schedules ev0 w (reachable_wf w Hr) Hm Hc) as (Hj0 & Hs0 & _).
  destruct (burst_keeps_one_pending rest _ Hj0 Hq) as (Hj1 & Hs1).
  fold w1 in Hj1, Hs1. rewrite Hs0 in Hs1.
  destruct Hj1 as (Hw1 & Hm1 & id & Ht1).
  assert (Hu1 : isUnmountedRef w1 = false).
  { unfold wf in Hw1. rewrite Hm1 in Hw1. apply Hw1. }
  split; [exact Hs1|]. split; [exists id; exact Ht1|].
  split; [|split].
  - intros d Hd. rewrite (wait_quiet d w1 _ Ht1) by (cbn; lia).
    rewrite <- Hs1. destruct_world w1; reflexivity.
  - unfold delay at 1.
    rewrite (wait_fires 399 w1 _ Ht1) by (assumption || reflexivity).
    rewrite <- Hs1. destruct_world w1; unfold fired, delay; cbn.
    do 2 f_equal. lia.
  - intros Hd Hf. unfold delay at 1.
    rewrite (wait_fires 399 w1 _ Ht1) by (assumption || reflexivity).
    destruct_world w1; cbn in Hd, Hf; subst. unfold fired; cbn.
    apply lookup_insert_eq.
Qed.

(** Changes at t = 0, 100 and 200: nothing is written up to t = 599, and
    at t = 600 the value of the last change is written, once. *)
Lemma debounced_save_witness :
  let w := start ∅ false false 0 in
  let w1 := run_burst [(100, Click_increment); (100, KeyDown "ArrowUp")]
              (exec Click_increment w) in
  now w = 0 /\ now w1 = 200
  /\ setItem_calls (wait 399 w1) = []
  /\ setItem_calls (wait 400 w1) = [(600, "3")]
  /\ localStorage (wait 400 w1) !! STORAGE_KEY = Some "3".
Proof.
  destruct (debounced_save (start ∅ false false 0) Click_increment
              [(100, Click_increment); (100, KeyDown "ArrowUp")]
              (reachable_start ∅ false false 0))
    as (_ & _ & Hearly & Hfire & Hstore); try (vm_compute; reflexivity).
  cbv zeta.
  split; [vm_compute; reflexivity|]. split; [vm_compute; reflexivity|].
  split; [rewrite (Hearly 399) by (unfold delay; lia); vm_compute; reflexivity|].
  split.
  - etransitivity; [exact Hfire|]. vm_compute. reflexivity.
  - etransitivity; [apply Hstore; vm_compute; reflexivity|].
    vm_compute. reflexivity.
Defined.

(* ================================================================== *)
(** * What the store holds                                             *)
(* ================================================================== *)

(** An event leaves the stored value as it was, removes it, or replaces
    it by the string of the current count. *)
Lemma storage_step ev w :
  wf w ->
  let after := localStorage (exec ev w) !! STORAGE_KEY in
  after = localStorage w !! STORAGE_KEY \/ after = None \/
  after = Some (JS.String (count w)).
Proof.
  intros Hw. cbv zeta.
  destruct (mounted w) eqn:Hm;
    [|rewrite wf_exec_unmounted by assumption;
      left; destruct ev; destruct_world w; reflexivity].
  assert (ev = Tick \/ ev <> Tick) as [->|Hev]
    by (destruct ev; (left; reflexivity) || (right; discriminate)).
  - unfold wf in Hw. rewrite Hm in Hw.
    destruct Hw as (Hu & Hk & Hs & Hp). unfold pending_ok in Hp.
    unfold exec, dispatch.
    destruct (saveTimerRef w) eqn:Hr, (timers w) as [|t [|]] eqn:Ht;
      try contradiction.
    + destruct Hp as (Hid & Hc & Hd).
      destruct (decide (timer_due t <= S (now w))).
      * rewrite (tick_fire w t) by assumption. rewrite <- Hc.
        destruct_world w; unfold fired; cbn.
        destruct (negb _ && negb _); [right; right; apply lookup_insert_eq|left; reflexivity].
      * rewrite (tick_waiting w t) by (assumption || lia).
        left; destruct_world w; reflexivity.
    + rewrite tick_idle by assumption. left; destruct_world w; reflexivity.
  - destruct_world w.
    destruct ev; try congruence; run_event; cbn;
      rewrite ?lookup_delete_eq; auto.
Qed.

Lemma session_storage evs :
  forall w v, wf w ->
  localStorage (run evs w) !! STORAGE_KEY = Some v ->
  localStorage w !! STORAGE_KEY = Some v \/
  exists c, c ∈ counts_along w evs /\ v = JS.String c.
Proof.
  induction evs as [|ev evs IH]; intros w v Hw Hv; [left; exact Hv|].
  rewrite run_cons in Hv. cbn [counts_along].
  destruct (IH _ _ (wf_exec ev w Hw) Hv) as [Hs | (c & Hc & ->)].
  - destruct (storage_step ev w Hw) as [He | [He | He]];
      rewrite He in Hs.
    + left; exact Hs.
    + discriminate.
    + right. exists (count w). split; [left|congruence].
  - right. exists c. split; [right; exact Hc | reflexivity].
Qed.

Lemma start_storage storage denied full t0 :
  localStorage (start storage denied full t0) = storage.
Proof. unfold start, page. js_cases; reflexivity. Qed.

Lemma sessions_storage ss :
  forall w evs v, wf w ->
  localStorage (run evs (sessions w ss)) !! STORAGE_KEY = Some v ->
  localStorage w !! STORAGE_KEY = Some v \/
  exists c, c ∈ counts_held w ss evs /\ v = JS.String c.
Proof.
  induction ss as [|s rest IH]; intros w evs v Hw Hv;
    [apply session_storage; assumption|].
  cbn [sessions counts_held] in *.
  destruct (IH _ _ _ (wf_start _ _ _ _) Hv) as [Hs | (c & Hc & ->)].
  - unfold reload in Hs. rewrite start_storage in Hs.
    destruct (session_storage s w v Hw Hs) as [H0 | (c & Hc & ->)];
      [left; exact H0|].
    right. exists c. split; [apply elem_of_app; left; exact Hc | reflexivity].
  - right. exists c. split; [apply elem_of_app; right; exact Hc | reflexivity].
Qed.

(** C3, as stated, fails: a store that holds "abc" before the first
    session still holds it once the component is mounted, while the only
    value Count has held is NaN, whose text is "NaN". *)
Lemma stored_text_was_never_held :
  let w0 := start (<[STORAGE_KEY := "abc"]> ∅) false false 0 in
  localStorage (run [] (sessions w0 [])) !! STORAGE_KEY = Some "abc"
  /\ counts_held w0 [] [] = [JS.NaN]
  /\ ~ (exists c, c ∈ counts_held w0 [] [] /\ "abc" = JS.String c).
Proof.
  cbv zeta.
  assert (Hc : counts_held (start (<[STORAGE_KEY := "abc"]> ∅) false false 0)
                 [] [] = [JS.NaN]) by (vm_compute; reflexivity).
  split; [vm_compute; reflexivity|]. split; [exact Hc|].
  rewrite Hc. intros (c & Hin & He).
  apply list_elem_of_singleton in Hin. subst c.
  vm_compute in He. discriminate.
Qed.

(** C3, amended.  Whatever the sessions and events so far, a value found
    in the store under the key is either the one the store already held
    before the first session, or the string of a number that Count held at
    some instant of an earlier session or of the current one. *)
Theorem persisted_value_was_held storage denied full t0 ss evs v :
  let w0 := start storage denied full t0 in
  localStorage (run evs (sessions w0 ss)) !! STORAGE_KEY = Some v ->
  storage !! STORAGE_KEY = Some v \/
  exists c, c ∈ counts_held w0 ss evs /\ v = JS.String c.
Proof.
  intros w0 Hv.
  destruct (sessions_storage ss w0 evs v (wf_start _ _ _ _) Hv) as [H|H];
    [left|right; exact H].
  subst w0. rewrite start_storage in H. exact H.
Qed.

(** A first session saves 2; in the next session, after a decrement, the
    store still holds "2", a value Count held. *)
Lemma persisted_value_was_held_witness :
  let w0 := start ∅ false false 0 in
  let ss := [([Click_increment; Click_increment] ++ repeat Tick 400)%list] in
  let evs := [Click_decrement] in
  localStorage (run evs (sessions w0 ss)) !! STORAGE_KEY = Some "2"
  /\ exists c, c ∈ counts_held w0 ss evs /\ "2" = JS.String c.
Proof.
  cbv zeta.
  assert (H : localStorage
                (run [Click_decrement]
                   (sessions (start ∅ false false 0)
                      [([Click_increment; Click_increment] ++ repeat Tick 400)%list]))
                !! STORAGE_KEY = Some "2") by (vm_compute; reflexivity).
  split; [exact H|].
  destruct (persisted_value_was_held ∅ false false 0 _ _ _ H) as [H0|H1];
    [discriminate H0 | exact H1].
Defined.

(* ================================================================== *)
(** * History                                                          *)
(* ================================================================== *)


Lemma strict_eq_irrefl x : JS.strict_eq x x = false -> x = JS.NaN.
Proof.
  intros H. destruct x as [s|s| |s m e]; try reflexivity;
    rewrite strict_eq_refl in H by discriminate; discriminate.
Qed.






Lemma start_history storage denied full t0 :
  let w0 := start storage denied full t0 in
  history w0 = record_count (count w0) [count w0].
Proof. unfold start, page. js_cases; reflexivity. Qed.




(* ================================================================== *)
(** * Arithmetic                                                       *)
(* ================================================================== *)

Local Open Scope Z_scope.

(** ** Integers below [2^53] are added and subtracted exactly *)

Lemma iter_xO_value p n : Zpos (Pos.iter xO p n) = Zpos p * 2 ^ Zpos n.
Proof.
  rewrite <- Z.shiftl_mul_pow2 by lia. cbn [Z.shiftl].
  apply (Pos.iter_swap_gen _ _ Zpos xO (Z.mul 2)). reflexivity.
Qed.

Lemma shl_value p k : 0 <= k -> Zpos (shl p k) = Zpos p * 2 ^ k.
Proof.
  destruct k as [|n|n]; intros Hk; try lia.
  - cbn. lia.
  - apply iter_xO_value.
Qed.

Lemma iter_xO_digits p n :
  Zpos (digits2_pos (Pos.iter xO p n)) = Zpos (digits2_pos p) + Zpos n.
Proof.
  revert p. induction n as [|n IH] using Pos.peano_ind; intros p.
  - cbn. lia.
  - rewrite Pos.iter_succ. cbn [digits2_pos]. rewrite Pos2Z.inj_succ, IH. lia.
Qed.

Lemma shl_digits p k :
  0 <= k -> Zpos (digits2_pos (shl p k)) = Zpos (digits2_pos p) + k.
Proof.
  destruct k as [|n|n]; intros Hk; try lia.
  - cbn. lia.
  - apply iter_xO_digits.
Qed.

Lemma shl_shl p a b : 0 <= a -> 0 <= b -> shl (shl p a) b = shl p (a + b).
Proof.
  intros Ha Hb. apply Pos2Z.inj.
  rewrite !shl_value by lia. rewrite Z.pow_add_r by lia. ring.
Qed.

Lemma shr_exact n m :
  iter_pos shr_1 n
    {| shr_m := Zpos (Pos.iter xO m n); shr_r := false; shr_s := false |} =
  {| shr_m := Zpos m; shr_r := false; shr_s := false |}.
Proof.
  revert m. induction n as [n IH|n IH|]; intros m; cbn [iter_pos Pos.iter].
  - cbn [shr_1 orb]. rewrite !IH. reflexivity.
  - rewrite !IH. reflexivity.
  - reflexivity.
Qed.

Lemma round_aux_exact s p K :
  Zpos (digits2_pos p) <= 53 -> 0 <= K ->
  53 - Zpos (digits2_pos p) <= K ->
  binary_round_aux JS.prec JS.emax s (Zpos (shl p K)) (- K) loc_Exact =
  canonical s p.
Proof.
  intros Hd HK Hlow.
  set (d := Zpos (digits2_pos p)) in *.
  assert (Hd1 : 1 <= d) by (subst d; lia).
  unfold binary_round_aux, shr_fexp, fexp, emin, JS.prec, JS.emax.
  cbn [Zdigits2 shr_record_of_loc]. rewrite shl_digits by lia. fold d.
  replace (Z.max (d + K + - K - 53) (3 - 1024 - 53) - - K)
    with (d - 53 + K) by lia.
  assert (Hsh : shr {| shr_m := Zpos (shl p K); shr_r := false; shr_s := false |}
                  (- K) (d - 53 + K) =
                ({| shr_m := Zpos (shl p (53 - d)); shr_r := false;
                    shr_s := false |}, d - 53)).
  { unfold shr. destruct (d - 53 + K) as [|n|n] eqn:Hn; try lia.
    - replace K with (53 - d) by lia. f_equal. lia.
    - replace (shl p K) with (Pos.iter xO (shl p (53 - d)) n).
      + rewrite shr_exact. f_equal. lia.
      + change (Pos.iter xO (shl p (53 - d)) n)
          with (shl (shl p (53 - d)) (Zpos n)).
        rewrite shl_shl by lia. f_equal. lia. }
  rewrite Hsh. cbn [shr_m loc_of_shr_record round_nearest_even].
  cbn [Zdigits2 shr_record_of_loc]. rewrite shl_digits by lia. fold d.
  replace (Z.max (d + (53 - d) + (d - 53) - 53) (3 - 1024 - 53) - (d - 53))
    with 0 by lia.
  cbn [shr shr_m].
  replace (d - 53 <=? 1024 - 53) with true by (symmetry; apply Z.leb_le; lia).
  reflexivity.
Qed.

Lemma round_exact s p K :
  Zpos (digits2_pos p) <= 53 -> 0 <= K ->
  binary_round JS.prec JS.emax s (shl p K) (- K) = canonical s p.
Proof.
  intros Hd HK.
  set (d := Zpos (digits2_pos p)) in *.
  assert (Hd1 : 1 <= d) by (subst d; lia).
  unfold binary_round, shl_align, fexp, emin, JS.prec, JS.emax.
  rewrite shl_digits by lia. fold d.
  replace (Z.max (d + K + - K - 53) (3 - 1024 - 53) - - K)
    with (d - 53 + K) by lia.
  destruct (d - 53 + K) as [|n|n] eqn:Hn.
  - apply round_aux_exact; lia.
  - apply round_aux_exact; lia.
  - change (Pos.iter xO (shl p K) n) with (shl (shl p K) (Zpos n)).
    rewrite shl_shl by lia.
    replace (Z.max (d + K + - K - 53) (3 - 1024 - 53)) with (- (53 - d)) by lia.
    replace (K + Zpos n) with (53 - d) by lia.
    apply round_aux_exact; lia.
Qed.

Lemma digits_bound p : Zpos p < 2 ^ 53 -> Zpos (digits2_pos p) <= 53.
Proof.
  intros Hp.
  assert (H : forall q n, 0 <= n -> Zpos q < 2 ^ n -> Zpos (digits2_pos q) <= n).
  { induction q as [q IH|q IH|]; intros n Hn Hq; cbn [digits2_pos];
      rewrite ?Pos2Z.inj_succ.
    - assert (0 < n) by (destruct (Z.eq_dec n 0) as [->|]; [cbn in Hq|]; lia).
      specialize (IH (n - 1) ltac:(lia)).
      replace n with (Z.succ (n - 1)) in Hq by lia.
      rewrite Z.pow_succ_r in Hq by lia. lia.
    - assert (0 < n) by (destruct (Z.eq_dec n 0) as [->|]; [cbn in Hq|]; lia).
      specialize (IH (n - 1) ltac:(lia)).
      replace n with (Z.succ (n - 1)) in Hq by lia.
      rewrite Z.pow_succ_r in Hq by lia. lia.
    - destruct (Z.eq_dec n 0) as [->|]; [cbn in Hq; lia | lia]. }
  apply H; [lia | exact Hp].
Qed.

Lemma of_Z_pos p : Zpos p < 2 ^ 53 -> JS.of_Z (Zpos p) = canonical false p.
Proof.
  intros Hp. unfold JS.of_Z. cbn [binary_normalize].
  apply (round_exact false p 0); [apply digits_bound, Hp | lia].
Qed.

Lemma of_Z_neg p : Zpos p < 2 ^ 53 -> JS.of_Z (Zneg p) = canonical true p.
Proof.
  intros Hp. unfold JS.of_Z. cbn [binary_normalize].
  apply (round_exact true p 0); [apply digits_bound, Hp | lia].
Qed.

(** Rounding the integer [z * 2^K] at exponent [-K] gives the number [z]. *)
Lemma normalize_exact z K :
  safe z -> 0 <= K ->
  binary_normalize JS.prec JS.emax (z * 2 ^ K) (- K) false = JS.of_Z z.
Proof.
  unfold safe. intros Hz HK.
  destruct z as [|p|p].
  - reflexivity.
  - rewrite of_Z_pos by lia. rewrite <- shl_value by lia.
    cbn [binary_normalize]. apply round_exact; [apply digits_bound|]; lia.
  - rewrite of_Z_neg by lia.
    replace (Z.neg p * 2 ^ K) with (- (Zpos (shl p K)))
      by (rewrite shl_value by lia; lia).
    cbn [Z.opp binary_normalize]. apply round_exact; [apply digits_bound|]; lia.
Qed.

Lemma align_canonical p e :
  let d := Zpos (digits2_pos p) in
  d <= 53 -> e <= d - 53 ->
  fst (shl_align (shl p (53 - d)) (d - 53) e) = shl p (- e).
Proof.
  intros d Hd He. unfold shl_align.
  destruct (e - (d - 53)) as [|n|n] eqn:Hn; cbn [fst]; try lia.
  - f_equal. lia.
  - change (Pos.iter xO (shl p (53 - d)) n) with (shl (shl p (53 - d)) (Zpos n)).
    rewrite shl_shl by lia. f_equal. lia.
Qed.

Lemma add_canonical s1 p1 s2 p2 :
  Zpos p1 < 2 ^ 53 -> Zpos p2 < 2 ^ 53 ->
  safe (signed s1 p1 + signed s2 p2) ->
  JS.add (canonical s1 p1) (canonical s2 p2) =
  JS.of_Z (signed s1 p1 + signed s2 p2).
Proof.
  intros H1 H2 Hs.
  pose proof (digits_bound p1 H1) as D1. pose proof (digits_bound p2 H2) as D2.
  unfold JS.add, canonical. cbn [SFadd].
  set (ez := Z.min (Zpos (digits2_pos p1) - 53) (Zpos (digits2_pos p2) - 53)).
  rewrite (align_canonical p1 ez), (align_canonical p2 ez) by lia.
  replace ez with (- (- ez)) at 3 by lia.
  rewrite <- (normalize_exact _ (- ez)) by (assumption || lia).
  f_equal. unfold signed. rewrite !shl_value by lia.
  destruct s1, s2; cbn [cond_Zopp]; lia.
Qed.

Lemma sub_canonical s1 p1 s2 p2 :
  Zpos p1 < 2 ^ 53 -> Zpos p2 < 2 ^ 53 ->
  safe (signed s1 p1 - signed s2 p2) ->
  JS.sub (canonical s1 p1) (canonical s2 p2) =
  JS.of_Z (signed s1 p1 - signed s2 p2).
Proof.
  intros H1 H2 Hs.
  pose proof (digits_bound p1 H1) as D1. pose proof (digits_bound p2 H2) as D2.
  unfold JS.sub, canonical. cbn [SFsub].
  set (ez := Z.min (Zpos (digits2_pos p1) - 53) (Zpos (digits2_pos p2) - 53)).
  rewrite (align_canonical p1 ez), (align_canonical p2 ez) by lia.
  replace ez with (- (- ez)) at 3 by lia.
  rewrite <- (normalize_exact _ (- ez)) by (assumption || lia).
  f_equal. unfold signed. rewrite !shl_value by lia.
  destruct s1, s2; cbn [cond_Zopp]; lia.
Qed.

Lemma of_Z_canonical z :
  safe z ->
  JS.of_Z z =
    match z with
    | Z0 => S754_zero false
    | Zpos p => canonical false p
    | Zneg p => canonical true p
    end.
Proof.
  unfold safe. destruct z; intros Hz;
    [reflexivity | apply of_Z_pos; lia | apply of_Z_neg; lia].
Qed.

(** Addition and subtraction of integers are exact while the operands and
    the result stay below [2^53] in magnitude. *)
Lemma add_exact a b :
  safe a -> safe b -> safe (a + b) ->
  JS.add (JS.of_Z a) (JS.of_Z b) = JS.of_Z (a + b).
Proof.
  intros Ha Hb Hab.
  rewrite (of_Z_canonical a Ha), (of_Z_canonical b Hb).
  unfold safe in Ha, Hb.
  destruct a as [|p|p], b as [|q|q]; try reflexivity.
  - symmetry. apply of_Z_pos. lia.
  - symmetry. apply of_Z_neg. lia.
  - symmetry. apply of_Z_pos. lia.
  - apply (add_canonical false p false q); lia || exact Hab.
  - apply (add_canonical false p true q); lia || exact Hab.
  - symmetry. apply of_Z_neg. lia.
  - apply (add_canonical true p false q); lia || exact Hab.
  - apply (add_canonical true p true q); lia || exact Hab.
Qed.

Lemma sub_exact a b :
  safe a -> safe b -> safe (a - b) ->
  JS.sub (JS.of_Z a) (JS.of_Z b) = JS.of_Z (a - b).
Proof.
  intros Ha Hb Hab.
  rewrite (of_Z_canonical a Ha), (of_Z_canonical b Hb).
  unfold safe in Ha, Hb.
  destruct a as [|p|p], b as [|q|q]; try reflexivity.
  - symmetry. apply of_Z_neg. lia.
  - symmetry. apply of_Z_pos. lia.
  - symmetry. apply of_Z_pos. lia.
  - apply (sub_canonical false p false q); lia || exact Hab.
  - apply (sub_canonical false p true q); lia || exact Hab.
  - symmetry. apply of_Z_neg. lia.
  - apply (sub_canonical true p false q); lia || exact Hab.
  - apply (sub_canonical true p true q); lia || exact Hab.
Qed.

(** ** Increments and decrements *)

Lemma click_count ev w :
  mounted w = true -> is_click ev = true ->
  mounted (exec ev w) = true /\ step (exec ev w) = step w /\
  count (exec ev w) =
    match ev with
    | Click_decrement => JS.sub (count w) (step w)
    | _ => JS.add (count w) (step w)
    end.
Proof.
  intros Hm Hc. destruct_world w. cbn in Hm. subst.
  destruct ev; try discriminate; repeat split; run_event; reflexivity.
Qed.

(** C8, as stated, fails: from 2^53 two increments by 1 leave Count at
    2^53, not at 2^53 + 2; and ten increments by 0.1 from 0 give
    0.9999999999999999. *)
Lemma count_sum_is_rounded :
  let w := start (<[STORAGE_KEY := "9007199254740992"]> ∅) false false 0 in
  let ops := [Click_increment; Click_increment] in
  (mounted w = true /\ count w = JS.of_Z (2 ^ 53) /\ step w = JS.of_Z 1 /\
   count (run ops w) = JS.of_Z (2 ^ 53) /\
   JS.of_Z (2 ^ 53) <> JS.of_Z (2 ^ 53 + net ops * 1))
  /\ (let w' := exec (Change_step "0.1") (start ∅ false false 0) in
      JS.String (step w') = "0.1" /\
      JS.String (count (run (repeat Click_increment 10) w')) =
        "0.9999999999999999").
Proof. vm_compute. repeat split; discriminate. Qed.

(** C8, amended.  When the initial Count and the step are integers [a] and
    [s], and [|a| + N * |s|] is below 2^53 for the number [N] of calls,
    the Count after any sequence of [N] increment and decrement calls is
    [a + (increments - decrements) * s]. *)
Theorem count_is_initial_plus_net_steps ops :
  forall w a s,
  mounted w = true -> count w = JS.of_Z a -> step w = JS.of_Z s ->
  forallb is_click ops = true ->
  Z.abs a + Z.of_nat (List.length ops) * Z.abs s < 2 ^ 53 ->
  count (run ops w) = JS.of_Z (a + net ops * s).
Proof.
  induction ops as [|ev ops IH]; intros w a s Hm Ha Hs Hc Hb.
  - cbn. rewrite Ha. f_equal. lia.
  - cbn [forallb] in Hc. apply andb_prop in Hc as [Hev Hc].
    destruct (click_count ev w Hm Hev) as (Hm' & Hs' & Hc').
    cbn [List.length] in Hb. rewrite Nat2Z.inj_succ, Z.mul_succ_l in Hb.
    assert (0 <= Z.of_nat (List.length ops) * Z.abs s) by nia.
    rewrite run_cons. rewrite Ha, Hs in Hc'. rewrite Hs in Hs'.
    destruct ev; try discriminate Hev; cbn [net].
    + rewrite add_exact in Hc' by (unfold safe; lia).
      rewrite (IH _ (a + s) s Hm' Hc' Hs' Hc) by lia. f_equal. lia.
    + rewrite sub_exact in Hc' by (unfold safe; lia).
      rewrite (IH _ (a - s) s Hm' Hc' Hs' Hc) by lia. f_equal. lia.
Qed.

Lemma count_is_initial_plus_net_steps_witness :
  count (run [Click_increment; Click_increment; Click_decrement]
           (start ∅ false false 0%nat)) = JS.of_Z 1.
Proof.
  apply (count_is_initial_plus_net_steps
           [Click_increment; Click_increment; Click_decrement]
           (start ∅ false false 0%nat) 0 1);
    try reflexivity.
Defined.

(** ** The first-step component

    [updateCount] appends every new count, with no comparison. *)
Lemma core_history_grows bs :
  forall s,
  List.length (CoreCounter.history (CoreCounter.run bs s)) =
  (List.length (CoreCounter.history s) + List.length bs)%nat.
Proof.
  induction bs as [|b bs IH]; intros s; [cbn; lia|].
  change (CoreCounter.run (b :: bs) s)
    with (CoreCounter.run bs (CoreCounter.onClick b s)).
  rewrite IH. destruct b; cbn; rewrite length_app; cbn; lia.
Qed.

(* ================================================================== *)
(** * Further properties of the component                              *)
(* ================================================================== *)

Local Open Scope nat_scope.

(** ** The step *)

(** An event other than a step change leaves the step alone. *)
Lemma step_frame ev w :
  wf w -> (forall raw, ev <> Change_step raw) -> step (exec ev w) = step w.
Proof.
  intros Hw Hev.
  destruct (mounted w) eqn:Hm;
    [|rewrite wf_exec_unmounted by assumption;
      destruct ev; destruct_world w; reflexivity].
  assert (ev = Tick \/ ev <> Tick) as [->|Ht]
    by (destruct ev; (left; reflexivity) || (right; discriminate)).
  - unfold wf in Hw. rewrite Hm in Hw.
    destruct Hw as (Hu & Hk & Hs & Hp). unfold pending_ok in Hp.
    unfold exec, dispatch.
    destruct (saveTimerRef w) eqn:Hr, (timers w) as [|t [|]] eqn:Htm;
      try contradiction.
    + destruct (decide (timer_due t <= S (now w))).
      * rewrite (tick_fire w t) by assumption. destruct_world w; reflexivity.
      * rewrite (tick_waiting w t) by (assumption || lia).
        destruct_world w; reflexivity.
    + rewrite tick_idle by assumption. destruct_world w; reflexivity.
  - destruct_world w.
    destruct ev; try congruence; try (exfalso; eapply Hev; reflexivity);
      run_event; reflexivity.
Qed.

Lemma step_ok_exec ev w : wf w -> step_ok w -> step_ok (exec ev w).
Proof.
  intros Hw [Hf Hz]. unfold step_ok.
  assert ((exists raw, ev = Change_step raw) \/ forall raw, ev <> Change_step raw)
    as [[raw ->]|Hev]
    by (destruct ev; try (right; discriminate); left; eexists; reflexivity).
  - destruct (mounted w) eqn:Hm.
    + rewrite (handleStepChange_step raw w Hm).
      destruct (JS.Number_isFinite (JS.Number raw)) eqn:Hfin; cbn [andb];
        [|split; reflexivity].
      destruct (JS.strict_eq (JS.Number raw) zero) eqn:Hzero; cbn [negb];
        split; assumption || reflexivity.
    + rewrite wf_exec_unmounted by assumption. split; assumption.
  - rewrite (step_frame ev w Hw Hev). split; assumption.
Qed.

Lemma step_ok_reachable w : reachable w -> step_ok w.
Proof.
  induction 1 as [storage denied full t0|w ev Hr IH].
  - unfold step_ok, start, page. js_cases; split; reflexivity.
  - apply step_ok_exec; [apply reachable_wf, Hr | exact IH].
Qed.

(** What one millisecond does to a well-formed world: nothing but the
    clock moves, or the one pending save fires. *)
Lemma exec_tick_cases w :
  wf w ->
  exec Tick w = set_now (S (now w)) w \/
  exists t, timers w = [t] /\ mounted w = true /\
            timer_closure t = count w /\ timer_due t = S (now w) /\
            exec Tick w = fired t w.
Proof.
  intros Hw. unfold exec, dispatch. unfold wf in Hw.
  destruct (mounted w) eqn:Hm.
  - destruct Hw as (Hu & Hk & Hs & Hp). unfold pending_ok in Hp.
    destruct (saveTimerRef w) eqn:Hr, (timers w) as [|t [|]] eqn:Ht;
      try contradiction.
    + destruct Hp as (Hid & Hc & Hd).
      destruct (decide (timer_due t <= S (now w))).
      * right. exists t. rewrite (tick_fire w t) by assumption.
        repeat split; try assumption. lia.
      * left. rewrite (tick_waiting w t) by (assumption || lia). reflexivity.
    + left. rewrite tick_idle by assumption. reflexivity.
  - destruct Hw as (_ & _ & _ & Ht). left.
    rewrite tick_idle by assumption. reflexivity.
Qed.

Lemma saving_ok_exec ev w : wf w -> saving_ok w -> saving_ok (exec ev w).
Proof.
  intros Hw Hs. unfold saving_ok in *.
  destruct (mounted w) eqn:Hm;
    [|rewrite wf_exec_unmounted by assumption;
      destruct ev; destruct_world w; cbn in *; congruence].
  specialize (Hs eq_refl).
  assert (ev = Tick \/ ev <> Tick) as [->|Ht]
    by (destruct ev; (left; reflexivity) || (right; discriminate)).
  - destruct (exec_tick_cases w Hw) as [-> | (t & Htm & _ & _ & _ & ->)];
      destruct_world w; cbn in *; intros _; subst; reflexivity || assumption.
  - unfold wf in Hw. rewrite Hm in Hw.
    destruct Hw as (Hu & Hk & Hst & Hp). unfold pending_ok in Hp.
    destruct_world w. cbn in Hm, Hu, Hk, Hst, Hp, Hs. subst.
    destruct saveTimerRef0, timers0 as [|t [|]]; try contradiction;
      try (destruct Hp as (? & ? & ?); subst);
      destruct ev; try congruence; run_event; absurd_key;
      rewrite ?filter_own_timer; cbn; intros; congruence.
Qed.

Lemma saving_ok_reachable w : reachable w -> saving_ok w.
Proof.
  induction 1 as [storage denied full t0|w ev Hr IH].
  - unfold saving_ok. unfold_js. destruct denied; cbn; reflexivity.
  - apply saving_ok_exec; [apply reachable_wf, Hr | exact IH].
Qed.

(** X1.  While the component is mounted, the Saving flag is up exactly
    while a save is pending: it is up iff a timer is pending, and down iff
    [saveTimerRef] is null. *)
Theorem saving_flag_tracks_pending_save w :
  reachable w -> mounted w = true ->
  (isSaving w = true <-> timers w <> []) /\
  (isSaving w = false <-> saveTimerRef w = None).
Proof.
  intros Hr Hm. pose proof (saving_ok_reachable w Hr Hm) as Hs.
  pose proof (reachable_wf w Hr) as Hw. unfold wf in Hw. rewrite Hm in Hw.
  destruct Hw as (_ & _ & _ & Hp). unfold pending_ok in Hp.
  destruct (saveTimerRef w), (timers w) as [|t [|]]; try contradiction;
    rewrite Hs; repeat split; intros; congruence.
Qed.

Lemma saving_flag_tracks_pending_save_witness :
  let w := exec Click_increment (start ∅ false false 0) in
  (isSaving w = true <-> timers w <> []) /\
  (isSaving w = false <-> saveTimerRef w = None).
Proof.
  apply saving_flag_tracks_pending_save;
    [apply reachable_exec, reachable_start | reflexivity].
Defined.


(** ** History and the count *)

Lemma strict_eq_refl_or_NaN x : JS.strict_eq x x = true \/ x = JS.NaN.
Proof.
  destruct (JS.strict_eq x x) eqn:H; [left; reflexivity|].
  right. apply strict_eq_irrefl, H.
Qed.

Lemma last_record_count c h :
  match last (record_count c h) with
  | None => c = zero
  | Some l => JS.strict_eq l c = true \/ (l = JS.NaN /\ c = JS.NaN)
  end.
Proof.
  unfold record_count. destruct (last h) as [l|] eqn:Hl.
  - destruct (JS.strict_eq l c) eqn:Hc.
    + rewrite Hl. left; exact Hc.
    + rewrite last_snoc. destruct (strict_eq_refl_or_NaN c); auto.
  - rewrite last_snoc. destruct (strict_eq_refl_or_NaN c); auto.
Qed.

Lemma history_ok_exec ev w : wf w -> history_ok w -> history_ok (exec ev w).
Proof.
  intros Hw Hh. unfold history_ok in *.
  destruct (mounted w) eqn:Hm;
    [|rewrite wf_exec_unmounted by assumption;
      destruct ev; destruct_world w; exact Hh].
  assert (ev = Tick \/ ev <> Tick) as [->|Ht]
    by (destruct ev; (left; reflexivity) || (right; discriminate)).
  - destruct (exec_tick_cases w Hw) as [-> | (t & _ & _ & _ & _ & ->)];
      destruct_world w; exact Hh.
  - destruct_world w. cbn [history count] in Hh.
    destruct ev; try congruence; run_event; absurd_key;
      cbn -[zero one record_count last];
      repeat match goal with
        | H : JS.Object_is _ _ = true |- _ => apply Object_is_eq in H
        end;
      try exact Hh; try apply last_record_count; try reflexivity;
      try match goal with
        | H : _ = _ |- _ => rewrite <- H; exact Hh
        end.
Qed.

Lemma history_ok_reachable w : reachable w -> history_ok w.
Proof.
  induction 1 as [storage denied full t0|w ev Hr IH].
  - unfold history_ok. rewrite start_history. apply last_record_count.
  - apply history_ok_exec; [apply reachable_wf, Hr | exact IH].
Qed.

(** [x === y] holds for identical numbers and for two zeros. *)
Lemma strict_eq_true x y :
  JS.strict_eq x y = true ->
  x = y \/ exists s s', x = S754_zero s /\ y = S754_zero s'.
Proof.
  destruct x as [s|s| |s m e], y as [s'|s'| |s' m' e'];
    cbv [JS.strict_eq SFeqb SFcompare];
    repeat match goal with b : bool |- _ => destruct b end;
    try discriminate; try (left; reflexivity); try (right; eauto; fail);
    destruct (Z.compare_spec e e') as [->| |]; try discriminate;
    change (PosDef.Pos.compare_cont Eq m m') with (Pos.compare m m');
    destruct (Pos.compare_spec m m') as [->| |]; try discriminate;
    left; reflexivity.
Qed.

Lemma strict_eq_same_text x y :
  JS.strict_eq x y = true -> JS.String x = JS.String y.
Proof.
  intros H. destruct (strict_eq_true x y H) as [->|(s & s' & -> & ->)];
    reflexivity.
Qed.

Lemma non_finite_add x s :
  JS.Number_isFinite x = false -> JS.Number_isFinite s = true ->
  JS.add x s = x /\ JS.sub x s = x.
Proof.
  destruct x as [?|sx| |? ? ?], s as [?|?| |? ? ?]; try discriminate;
    intros _ _; split; reflexivity.
Qed.

(** A count that is not finite (NaN or an infinity) is left only by
    reset. *)
Lemma non_finite_count_stuck ev w :
  wf w -> step_ok w ->
  JS.Number_isFinite (count w) = false -> ev <> Click_reset ->
  count (exec ev w) = count w.
Proof.
  intros Hw [Hsf _] Hc Hev.
  destruct (mounted w) eqn:Hm;
    [|rewrite wf_exec_unmounted by assumption;
      destruct ev; destruct_world w; reflexivity].
  assert (ev = Tick \/ ev <> Tick) as [->|Ht]
    by (destruct ev; (left; reflexivity) || (right; discriminate)).
  - destruct (exec_tick_cases w Hw) as [-> | (t & _ & _ & _ & _ & ->)];
      destruct_world w; reflexivity.
  - unfold wf in Hw. rewrite Hm in Hw. destruct Hw as (_ & _ & Hs & _).
    destruct_world w. cbn in Hm, Hs, Hsf, Hc. subst.
    destruct (non_finite_add c s Hc Hsf) as [Ha Hb].
    destruct ev; try congruence; run_event; absurd_key;
      rewrite ?Ha, ?Hb; reflexivity.
Qed.

(** X2.  In every reachable state the step is a finite number other than
    zero, whatever was typed into the step input, and while the component
    is mounted the side reference read by the key handler holds it. *)
Theorem step_stays_finite_and_nonzero w :
  reachable w ->
  JS.Number_isFinite (step w) = true
  /\ JS.strict_eq (step w) zero = false
  /\ (mounted w = true -> stepRef w = step w).
Proof.
  intros Hr. destruct (step_ok_reachable w Hr) as [Hf Hz].
  split; [exact Hf|]. split; [exact Hz|].
  intros Hm. pose proof (reachable_wf w Hr) as Hw.
  unfold wf in Hw. rewrite Hm in Hw. apply Hw.
Qed.

Lemma step_stays_finite_and_nonzero_witness :
  let w := run [Change_step "abc"; Change_step "0"; Change_step "Infinity";
                Click_increment; Change_step "-2.5"]
               (start ∅ false false 0) in
  JS.String (step w) = "-2.5"
  /\ JS.Number_isFinite (step w) = true
  /\ JS.strict_eq (step w) zero = false
  /\ stepRef w = step w.
Proof.
  split; [vm_compute; reflexivity|].
  destruct (step_stays_finite_and_nonzero
              (run [Change_step "abc"; Change_step "0"; Change_step "Infinity";
                    Click_increment; Change_step "-2.5"]
                   (start ∅ false false 0))
              (reachable_run _ _ (reachable_start ∅ false false 0)))
    as (Hf & Hz & Hs).
  split; [exact Hf|]. split; [exact Hz|]. apply Hs. vm_compute. reflexivity.
Defined.

Lemma non_finite_run evs :
  forall w, wf w -> step_ok w ->
  JS.Number_isFinite (count w) = false -> Click_reset ∉ evs ->
  count (run evs w) = count w.
Proof.
  induction evs as [|ev evs IH]; intros w Hw Hs Hc Hn; [reflexivity|].
  rewrite run_cons.
  assert (Hev : ev <> Click_reset) by (intros ->; apply Hn; left).
  pose proof (non_finite_count_stuck ev w Hw Hs Hc Hev) as Hstep.
  rewrite IH; try assumption.
  - apply wf_exec, Hw.
  - apply step_ok_exec; assumption.
  - rewrite Hstep. exact Hc.
  - intros Hin. apply Hn. right. exact Hin.
Qed.

(** X3.  Once Count is not finite (NaN, as after loading a stored text
    that is no number, or an infinity), no sequence of events without a
    reset changes it: adding or subtracting the finite step gives the same
    value again. *)
Theorem non_finite_count_is_left_only_by_reset w evs :
  reachable w -> JS.Number_isFinite (count w) = false ->
  Click_reset ∉ evs ->
  count (run evs w) = count w.
Proof.
  intros Hr Hc Hn.
  apply non_finite_run; try assumption;
    [apply reachable_wf | apply step_ok_reachable]; exact Hr.
Qed.

Lemma non_finite_count_is_left_only_by_reset_witness :
  let w := start (<[STORAGE_KEY := "abc"]> ∅) false false 0 in
  let evs := [Click_increment; KeyDown "ArrowDown"; Change_step "7";
              Click_decrement; Tick] in
  count w = JS.NaN /\ count (run evs w) = JS.NaN.
Proof.
  split; [vm_compute; reflexivity|].
  rewrite (non_finite_count_is_left_only_by_reset
             (start (<[STORAGE_KEY := "abc"]> ∅) false false 0)).
  - vm_compute. reflexivity.
  - apply reachable_start.
  - vm_compute. reflexivity.
  - intros Hin. repeat (apply elem_of_cons in Hin as [Hin|Hin]; [discriminate|]).
    inversion Hin.
Defined.

(** X4.  In every reachable state a non-empty history ends at the
    current count: its last entry is strictly equal to Count (or both are
    NaN), it prints as the same text, and so the last rendered history
    item shows the text of the Current Count line. *)
Theorem history_ends_at_count w l :
  reachable w -> last (history w) = Some l ->
  (JS.strict_eq l (count w) = true \/ (l = JS.NaN /\ count w = JS.NaN))
  /\ JS.String l = JS.String (count w)
  /\ (exists key,
        last (View.items 0 (history w)) =
          Some (key, View.current_count (View.render w))).
Proof.
  intros Hr Hl. pose proof (history_ok_reachable w Hr) as Hh.
  unfold history_ok in Hh. rewrite Hl in Hh.
  assert (Ht : JS.String l = JS.String (count w)).
  { destruct Hh as [Hh | [-> ->]]; [apply strict_eq_same_text, Hh | reflexivity]. }
  split; [exact Hh|]. split; [exact Ht|].
  cbn [View.render View.current_count]. rewrite <- Ht.
  clear Hh Ht Hr. revert Hl. generalize 0. generalize (history w).
  induction l0 as [|x [|y t] IH]; intros n Hl; [discriminate| |].
  - injection Hl as ->. eexists. reflexivity.
  - destruct (IH (S n) Hl) as [key Hk]. exists key. exact Hk.
Qed.

Lemma history_ends_at_count_witness :
  let w := run [Click_increment; Click_increment; Click_decrement]
             (start ∅ false false 0) in
  last (history w) = Some one /\ JS.String one = JS.String (count w).
Proof.
  assert (Hl : last (history (run [Click_increment; Click_increment;
                                   Click_decrement] (start ∅ false false 0)))
               = Some one) by (vm_compute; reflexivity).
  split; [exact Hl|].
  apply (history_ends_at_count _ one
           (reachable_run _ _ (reachable_start ∅ false false 0)) Hl).
Defined.

(** X5.  The history is empty only while Count is 0: whenever the
    "No history yet." line is rendered, the Current Count line reads 0. *)
Theorem empty_history_only_at_zero w :
  reachable w ->
  (history w = [] -> count w = zero)
  /\ (View.history_lines (View.render w) = View.No_history_yet ->
      View.current_count (View.render w) = "0").
Proof.
  intros Hr. pose proof (history_ok_reachable w Hr) as Hh.
  unfold history_ok in Hh.
  assert (H : history w = [] -> count w = zero).
  { intros He. rewrite He in Hh. exact Hh. }
  split; [exact H|].
  cbn [View.render View.history_lines View.current_count].
  destruct (history w) eqn:He; [|discriminate].
  intros _. rewrite H by reflexivity. reflexivity.
Qed.

Lemma empty_history_only_at_zero_witness :
  let w := run [Click_increment; Click_reset; Click_reset]
             (start ∅ false false 0) in
  history w = [] /\ count w = zero.
Proof.
  assert (He : history (run [Click_increment; Click_reset; Click_reset]
                          (start ∅ false false 0)) = [])
    by (vm_compute; reflexivity).
  split; [exact He|].
  apply (empty_history_only_at_zero _
           (reachable_run _ _ (reachable_start ∅ false false 0))), He.
Defined.

(** ** Timers *)

(** X6.  In every reachable state at most one save timer is pending.  A
    pending timer belongs to a mounted component, is the one
    [saveTimerRef] names, closes over the current count and is due within
    the next [delay] milliseconds; when [saveTimerRef] is null no timer is
    pending. *)
Theorem at_most_one_pending_save w :
  reachable w ->
  List.length (timers w) <= 1
  /\ (forall t, t ∈ timers w ->
        mounted w = true /\ saveTimerRef w = Some (timer_id t) /\
        timer_closure t = count w /\
        now w < timer_due t <= now w + delay)
  /\ (saveTimerRef w = None -> timers w = []).
Proof.
  intros Hr. pose proof (reachable_wf w Hr) as Hw. unfold wf in Hw.
  destruct (mounted w).
  - destruct Hw as (_ & _ & _ & Hp). unfold pending_ok in Hp.
    destruct (saveTimerRef w), (timers w) as [|t [|]]; try contradiction.
    + destruct Hp as (Hid & Hc & Hd). split; [cbn; lia|]. split; [|discriminate].
      intros t' Ht. apply list_elem_of_singleton in Ht as ->.
      rewrite Hid. repeat split; try assumption; lia.
    + split; [cbn; lia|]. split; [|reflexivity].
      intros t Ht. inversion Ht.
  - destruct Hw as (_ & _ & Hs & Ht). rewrite Ht.
    split; [cbn; lia|]. split; [|reflexivity]. intros t Hin. inversion Hin.
Qed.

Lemma at_most_one_pending_save_witness :
  let w := run [Click_increment; Tick; Click_increment; KeyDown "ArrowUp"]
             (start ∅ false false 0) in
  List.length (timers w) <= 1
  /\ (forall t, t ∈ timers w ->
        mounted w = true /\ saveTimerRef w = Some (timer_id t) /\
        timer_closure t = count w /\
        now w < timer_due t <= now w + delay)
  /\ (saveTimerRef w = None -> timers w = []).
Proof.
  intros w.
  exact (at_most_one_pending_save w
           (reachable_run _ _ (reachable_start ∅ false false 0))).
Defined.


(** ** Keys and the step input *)

(** X7.  A key other than "ArrowUp" and "ArrowDown" changes nothing at
    all: the world after the key event is the world before it.  The match
    is on the exact key name. *)
Theorem other_keys_do_nothing key w :
  key <> "ArrowUp" -> key <> "ArrowDown" -> exec (KeyDown key) w = w.
Proof.
  intros Hu Hd. apply String.eqb_neq in Hu, Hd.
  destruct_world w. unfold exec, dispatch, when, update, onKeyDown.
  rewrite Hu, Hd. js_cases; reflexivity.
Qed.

Lemma other_keys_do_nothing_witness :
  let w := exec Click_increment (start ∅ false false 0) in
  exec (KeyDown "Enter") w = w /\ exec (KeyDown "arrowup") w = w.
Proof.
  split; apply other_keys_do_nothing; discriminate.
Defined.

(** X8.  A change of the step input touches the step only: Count, the
    history, the store, the pending timers, the Saving flag and the clock
    are as before, whatever the text is. *)
Theorem step_change_touches_only_the_step raw w :
  let w' := exec (Change_step raw) w in
  count w' = count w /\ history w' = history w /\
  localStorage w' = localStorage w /\ timers w' = timers w /\
  isSaving w' = isSaving w /\ setItem_calls w' = setItem_calls w /\
  saveTimerRef w' = saveTimerRef w /\ now w' = now w.
Proof.
  destruct_world w. cbv zeta. repeat split; run_event; reflexivity.
Qed.

(** ** Reset *)

Lemma reset_spec w :
  mounted w = true ->
  mounted (exec Click_reset w) = true /\
  count (exec Click_reset w) = zero /\
  history (exec Click_reset w) =
    (if JS.Object_is (count w) zero then [] else [zero]).
Proof.
  intros Hm. destruct_world w. cbn in Hm. subst.
  repeat split; run_event; reflexivity.
Qed.

(** X9.  After two resets in a row Count is 0 and the history is empty:
    the second reset does not change Count, so the history effect does not
    run and the emptied history stays. *)
Theorem second_reset_empties_history w :
  mounted w = true ->
  let w2 := exec Click_reset (exec Click_reset w) in
  count w2 = zero /\ history w2 = [].
Proof.
  intros Hm w2. subst w2.
  destruct (reset_spec w Hm) as (Hm1 & Hc1 & _).
  destruct (reset_spec _ Hm1) as (_ & Hc2 & Hh2).
  split; [exact Hc2|]. rewrite Hh2, Hc1. reflexivity.
Qed.

Lemma second_reset_empties_history_witness :
  let w := exec Click_increment (start ∅ false false 0) in
  history (exec Click_reset w) = [zero]
  /\ history (exec Click_reset (exec Click_reset w)) = [].
Proof.
  split; [vm_compute; reflexivity|].
  apply (second_reset_empties_history
           (exec Click_increment (start ∅ false false 0))).
  vm_compute. reflexivity.
Defined.

(** ** History only grows, except on reset *)

Lemma prefix_record_count c h : h `prefix_of` record_count c h.
Proof.
  unfold record_count.
  destruct (last h); [destruct (JS.strict_eq _ _)|];
    try reflexivity; apply prefix_app_r; reflexivity.
Qed.

(** X10.  Every event other than a reset leaves the history it found as
    a prefix of the new one: entries are only ever appended. *)
Theorem history_is_append_only ev w :
  reachable w -> ev <> Click_reset ->
  history w `prefix_of` history (exec ev w).
Proof.
  intros Hr Hev. pose proof (reachable_wf w Hr) as Hw.
  destruct (mounted w) eqn:Hm;
    [|rewrite wf_exec_unmounted by assumption;
      destruct ev; destruct_world w; reflexivity].
  assert (ev = Tick \/ ev <> Tick) as [->|Ht]
    by (destruct ev; (left; reflexivity) || (right; discriminate)).
  - destruct (exec_tick_cases w Hw) as [-> | (t & _ & _ & _ & _ & ->)];
      destruct_world w; reflexivity.
  - destruct_world w.
    destruct ev; try congruence; run_event; absurd_key;
      cbn -[record_count]; try reflexivity; apply prefix_record_count.
Qed.

Lemma history_is_append_only_witness :
  let w := exec Click_increment (start ∅ false false 0) in
  history w `prefix_of` history (exec (KeyDown "ArrowUp") w).
Proof.
  apply history_is_append_only;
    [apply reachable_exec, reachable_start | discriminate].
Defined.

(** ** What the component leaves alone in the store *)

Lemma other_keys_step ev w k :
  wf w -> k <> STORAGE_KEY ->
  localStorage (exec ev w) !! k = localStorage w !! k.
Proof.
  intros Hw Hk.
  assert (ev = Tick \/ ev <> Tick) as [->|Ht]
    by (destruct ev; (left; reflexivity) || (right; discriminate)).
  - destruct (exec_tick_cases w Hw) as [-> | (t & _ & _ & _ & _ & ->)];
      destruct_world w; cbn; try reflexivity.
    destruct (negb _ && negb _); [|reflexivity].
    apply lookup_insert_ne. congruence.
  - destruct_world w.
    destruct ev; try congruence; run_event; cbn;
      rewrite ?lookup_delete_ne by congruence; reflexivity.
Qed.

(** X11.  The component reads and writes one key of the store only:
    whatever the events, every other key holds what it held before. *)
Theorem other_storage_keys_are_untouched evs :
  forall w k, reachable w -> k <> STORAGE_KEY ->
  localStorage (run evs w) !! k = localStorage w !! k.
Proof.
  induction evs as [|ev evs IH]; intros w k Hr Hk; [reflexivity|].
  rewrite run_cons, IH by (apply reachable_exec, Hr) || exact Hk.
  apply other_keys_step; [apply reachable_wf, Hr | exact Hk].
Qed.

Lemma other_storage_keys_are_untouched_witness :
  let w := start (<["theme" := "dark"]> ∅) false false 0 in
  localStorage (run (Click_increment :: repeat Tick 400 ++ [Click_reset])%list w)
    !! "theme" = localStorage w !! "theme".
Proof.
  apply other_storage_keys_are_untouched; [apply reachable_start | discriminate].
Defined.

Lemma denied_step ev w :
  wf w -> storage_denied w = true -> is_fault ev = false ->
  storage_denied (exec ev w) = true /\
  localStorage (exec ev w) = localStorage w.
Proof.
  intros Hw Hd Hf.
  assert (ev = Tick \/ ev <> Tick) as [->|Ht]
    by (destruct ev; (left; reflexivity) || (right; discriminate)).
  - destruct (exec_tick_cases w Hw) as [-> | (t & _ & _ & _ & _ & ->)];
      destruct_world w; cbn in *; subst; split; reflexivity.
  - destruct_world w. cbn in Hd. subst.
    destruct ev; try congruence; try discriminate;
      split; run_event; reflexivity.
Qed.

(** X12.  While access to the storage is denied, nothing the component
    does changes the stored items: failed writes and failed removals leave
    them as they were. *)
Theorem denied_storage_is_never_modified evs :
  forall w, reachable w -> storage_denied w = true ->
  existsb is_fault evs = false ->
  localStorage (run evs w) = localStorage w.
Proof.
  induction evs as [|ev evs IH]; intros w Hr Hd Hf; [reflexivity|].
  cbn [existsb] in Hf. apply orb_false_elim in Hf as [Hev Hf].
  destruct (denied_step ev w (reachable_wf w Hr) Hd Hev) as (Hd' & Hs).
  rewrite run_cons, IH by (apply reachable_exec, Hr) || assumption.
  exact Hs.
Qed.

Lemma denied_storage_is_never_modified_witness :
  let w := start (<[STORAGE_KEY := "5"]> ∅) true false 0 in
  localStorage (run (Click_increment :: repeat Tick 400 ++ [Click_reset])%list w)
  = localStorage w.
Proof.
  apply denied_storage_is_never_modified;
    [apply reachable_start | reflexivity | reflexivity].
Defined.

(** ** The Saving flag goes down within one quiet interval *)

Lemma wait_add a b w : wait (a + b) w = wait b (wait a w).
Proof.
  unfold wait, run. rewrite repeat_app, fold_left_app. reflexivity.
Qed.

Lemma wait_idle d :
  forall w, timers w = [] -> wait d w = set_now (now w + d) w.
Proof.
  induction d as [|d IH]; intros w Ht.
  - destruct_world w. unfold wait. cbn. rewrite Nat.add_0_r. reflexivity.
  - rewrite wait_S. unfold exec at 1, dispatch.
    rewrite tick_idle by assumption. cbn [snd].
    rewrite IH; destruct_world w; cbn in *; try assumption.
    unfold set_now; cbn. f_equal. lia.
Qed.

(** X13.  Left alone for one quiet interval, a mounted component
    settles: the Saving flag is down, no timer is pending, Count and the
    history are as they were.  If a save was pending and the storage
    works, the store then holds the text of Count; if none was pending,
    the store is unchanged. *)
Theorem saving_settles w :
  reachable w -> mounted w = true ->
  let w' := wait delay w in
  isSaving w' = false /\ timers w' = [] /\ saveTimerRef w' = None /\
  count w' = count w /\ history w' = history w /\
  (isSaving w = true -> storage_denied w = false -> storage_full w = false ->
   localStorage w' !! STORAGE_KEY = Some (JS.String (count w))) /\
  (isSaving w = false -> localStorage w' = localStorage w).
Proof.
  intros Hr Hm. cbv zeta.
  pose proof (reachable_wf w Hr) as Hw.
  pose proof (saving_ok_reachable w Hr Hm) as Hs.
  unfold wf in Hw. rewrite Hm in Hw. destruct Hw as (Hu & Hk & Hst & Hp).
  unfold pending_ok in Hp.
  destruct (saveTimerRef w) eqn:Href, (timers w) as [|t [|]] eqn:Ht;
    try contradiction.
  - destruct Hp as (Hid & Hc & Hd).
    replace delay with (S (timer_due t - now w - 1) + (delay - (timer_due t - now w)))
      by lia.
    rewrite wait_add.
    rewrite (wait_fires _ w t) by (assumption || lia).
    rewrite wait_idle by (destruct_world w; reflexivity).
    rewrite Hs. destruct_world w; cbn in *; subst.
    repeat split; try discriminate.
    intros _ -> ->. cbn. apply lookup_insert_eq.
  - rewrite wait_idle by assumption. rewrite Hs.
    destruct_world w; cbn in *; subst. repeat split; discriminate.
Qed.

Lemma saving_settles_witness :
  let w := exec Click_increment (start ∅ false false 0) in
  isSaving w = true /\
  isSaving (wait delay w) = false /\
  localStorage (wait delay w) !! STORAGE_KEY = Some (JS.String (count w)).
Proof.
  assert (Hm : mounted (exec Click_increment (start ∅ false false 0)) = true)
    by reflexivity.
  destruct (saving_settles _
              (reachable_exec _ Click_increment (reachable_start ∅ false false 0))
              Hm) as (H1 & _ & _ & _ & _ & H2 & _).
  split; [reflexivity|]. split; [exact H1|].
  apply H2; reflexivity.
Defined.

(** ** Mounting *)

Lemma start_spec storage denied full t0 :
  let w0 := start storage denied full t0 in
  let c := if denied then zero
           else match storage !! STORAGE_KEY with
                | Some raw => JS.Number raw
                | None => zero
                end in
  mounted w0 = true /\ isUnmountedRef w0 = false /\
  count w0 = c /\ step w0 = one /\
  isSaving w0 = true /\ now w0 = t0 /\
  storage_denied w0 = denied /\ storage_full w0 = full /\
  localStorage w0 = storage /\ setItem_calls w0 = [] /\
  timers w0 = [{| timer_id := 1; timer_due := t0 + delay;
                  timer_closure := c |}].
Proof.
  cbv zeta. unfold start, page.
  destruct denied; unfold_js; cbn;
    [|destruct (storage !! STORAGE_KEY) as [raw|]; cbn];
    repeat split; reflexivity.
Qed.

(** X14.  Mounting itself schedules a save.  With a readable storage the
    component starts at the stored number (0 when there is none) with the
    Saving flag up, writes nothing for less than one quiet interval, and
    after exactly one interval calls [setItem] once with the text of the
    loaded number, which replaces the stored text unless the storage is
    full; the Saving flag is then down. *)
Theorem mount_saves_the_loaded_value storage full t0 :
  let w0 := start storage false full t0 in
  let c := match storage !! STORAGE_KEY with
           | Some raw => JS.Number raw
           | None => zero
           end in
  count w0 = c /\ isSaving w0 = true /\
  isSaving (wait delay w0) = false /\
  (forall d, d < delay -> setItem_calls (wait d w0) = []) /\
  setItem_calls (wait delay w0) = [(t0 + delay, JS.String c)] /\
  localStorage (wait delay w0) =
    (if full then storage else <[STORAGE_KEY := JS.String c]> storage).
Proof.
  cbv zeta.
  destruct (start_spec storage false full t0)
    as (Hm & Hu & Hc & _ & Hi & Hn & Hd & Hf & Hl & Hs & Ht).
  cbv zeta in *.
  split; [exact Hc|]. split; [exact Hi|]. split; [|split; [|split]].
  - change delay with (S 399) at 1.
    rewrite (wait_fires 399 _ _ Ht) by (cbn; unfold delay; lia || assumption).
    destruct (start _ _ _ _); reflexivity.
  - intros d Hlt. rewrite (wait_quiet d _ _ Ht) by (cbn; lia).
    destruct (start _ _ _ _); exact Hs.
  - change delay with (S 399) at 1.
    rewrite (wait_fires 399 _ _ Ht) by (cbn; unfold delay; lia || assumption).
    destruct (start _ _ _ _); cbn in *; subst. cbn.
    f_equal. f_equal. unfold delay. lia.
  - change delay with (S 399) at 1.
    rewrite (wait_fires 399 _ _ Ht) by (cbn; unfold delay; lia || assumption).
    destruct (start _ _ _ _); cbn in *; subst. cbn.
    destruct full; reflexivity.
Qed.

(* ================================================================== *)
(** * The first-step component and the final one                       *)
(* ================================================================== *)

Lemma core_run_cons b bs s :
  CoreCounter.run (b :: bs) s = CoreCounter.run bs (CoreCounter.onClick b s).
Proof. reflexivity. Qed.

Lemma core_run_snoc bs b s :
  CoreCounter.run (bs ++ [b]) s = CoreCounter.onClick b (CoreCounter.run bs s).
Proof. unfold CoreCounter.run. rewrite fold_left_app. reflexivity. Qed.

(** X15.  In the first-step component, from an integer count [a], the
    count after [N] clicks is [a] plus increments minus decrements, as
    long as [|a| + N] is below 2^53. *)
Theorem core_count_is_net_clicks bs :
  forall s a,
  CoreCounter.count s = JS.of_Z a ->
  (Z.abs a + Z.of_nat (List.length bs) < 2 ^ 53)%Z ->
  CoreCounter.count (CoreCounter.run bs s) = JS.of_Z (a + core_net bs).
Proof.
  induction bs as [|b bs IH]; intros s a Ha Hb.
  - cbn. rewrite Ha. f_equal. lia.
  - cbn [List.length] in Hb. rewrite Nat2Z.inj_succ in Hb.
    rewrite core_run_cons. destruct b; cbn [core_net].
    + rewrite (IH _ (a - 1)%Z); [f_equal; lia| |lia].
      cbn [CoreCounter.onClick CoreCounter.updateCount CoreCounter.count].
      rewrite Ha. apply sub_exact; unfold safe; lia.
    + rewrite (IH _ (a + 1)%Z); [f_equal; lia| |lia].
      cbn [CoreCounter.onClick CoreCounter.updateCount CoreCounter.count].
      rewrite Ha. apply add_exact; unfold safe; lia.
Qed.

Lemma core_count_is_net_clicks_witness :
  CoreCounter.count
    (CoreCounter.run
       [CoreCounter.Increment; CoreCounter.Increment; CoreCounter.Decrement]
       CoreCounter.initial) = JS.of_Z 1.
Proof.
  apply (core_count_is_net_clicks
           [CoreCounter.Increment; CoreCounter.Increment; CoreCounter.Decrement]
           CoreCounter.initial 0); reflexivity.
Defined.

(** X16.  In the first-step component every click appends one entry:
    after at least one click the history ends at the current count, keeps
    the earlier history as a prefix, and has grown by the number of
    clicks. *)
Theorem core_history_ends_at_count bs s :
  bs <> [] ->
  let s' := CoreCounter.run bs s in
  last (CoreCounter.history s') = Some (CoreCounter.count s')
  /\ CoreCounter.history s `prefix_of` CoreCounter.history s'
  /\ List.length (CoreCounter.history s') =
     List.length (CoreCounter.history s) + List.length bs.
Proof.
  intros Hbs. cbv zeta. split; [|split].
  - destruct (exists_last Hbs) as (bs' & b & ->).
    rewrite core_run_snoc. destruct b; cbn; apply last_snoc.
  - clear Hbs. revert s. induction bs as [|b bs IH]; intros s; [reflexivity|].
    rewrite core_run_cons. etransitivity; [|apply IH].
    destruct b; cbn; apply prefix_app_r; reflexivity.
  - clear Hbs. revert s. induction bs as [|b bs IH]; intros s; [cbn; lia|].
    rewrite core_run_cons, IH.
    destruct b; cbn; rewrite length_app; cbn; lia.
Qed.

Lemma core_history_ends_at_count_witness :
  let s := CoreCounter.run [CoreCounter.Increment; CoreCounter.Decrement]
             CoreCounter.initial in
  last (CoreCounter.history s) = Some (CoreCounter.count s)
  /\ List.length (CoreCounter.history s) = 2.
Proof.
  destruct (core_history_ends_at_count
              [CoreCounter.Increment; CoreCounter.Decrement]
              CoreCounter.initial ltac:(discriminate)) as (H1 & _ & H2).
  split; [exact H1 | exact H2].
Defined.

(** X17.  With step 1, the final component and the first-step component
    started at the same count hold the same count after the same sequence
    of Increment and Decrement clicks. *)
Theorem components_agree_on_clicks bs :
  forall w s,
  mounted w = true -> step w = one -> count w = CoreCounter.count s ->
  count (run (map click_event bs) w) =
  CoreCounter.count (CoreCounter.run bs s).
Proof.
  induction bs as [|b bs IH]; intros w s Hm Hs Hc; [exact Hc|].
  cbn [map]. rewrite run_cons, core_run_cons.
  assert (Hk : is_click (click_event b) = true) by (destruct b; reflexivity).
  destruct (click_count _ w Hm Hk) as (Hm' & Hs' & Hc').
  apply IH; [exact Hm' | congruence |].
  rewrite Hc', Hs, Hc. destruct b; reflexivity.
Qed.

Lemma components_agree_on_clicks_witness :
  let bs := [CoreCounter.Increment; CoreCounter.Decrement;
             CoreCounter.Decrement] in
  count (run (map click_event bs) (start ∅ false false 0)) =
  CoreCounter.count (CoreCounter.run bs CoreCounter.initial).
Proof.
  apply components_agree_on_clicks; reflexivity.
Defined.

Lemma canonical_inj s p s' p' :
  (Zpos p < 2 ^ 53)%Z -> (Zpos p' < 2 ^ 53)%Z ->
  canonical s p = canonical s' p' -> s = s' /\ p = p'.
Proof.
  intros Hp Hp' H. unfold canonical in H. cbv zeta in H.
  injection H as Hs Hm He.
  assert (Hd : Zpos (digits2_pos p) = Zpos (digits2_pos p')) by lia.
  rewrite Hd in Hm.
  pose proof (digits_bound p' Hp') as Hb.
  assert (Hv : Zpos (shl p (53 - Zpos (digits2_pos p'))) =
               Zpos (shl p' (53 - Zpos (digits2_pos p')))) by congruence.
  rewrite !shl_value in Hv by lia.
  apply Z.mul_cancel_r in Hv; [|apply Z.pow_nonzero; lia].
  split; [exact Hs | congruence].
Qed.

Lemma of_Z_inj a b :
  safe a -> safe b -> JS.of_Z a = JS.of_Z b -> a = b.
Proof.
  intros Ha Hb. rewrite (of_Z_canonical a Ha), (of_Z_canonical b Hb).
  unfold safe in Ha, Hb.
  destruct a as [|p|p], b as [|q|q]; try reflexivity;
    try (unfold canonical; discriminate); intros H;
    apply canonical_inj in H as [Hs ->]; try lia; try reflexivity;
    discriminate.
Qed.

Lemma of_Z_not_NaN a : safe a -> JS.of_Z a <> JS.NaN.
Proof.
  intros Ha. rewrite (of_Z_canonical a Ha).
  destruct a; unfold canonical, JS.NaN; discriminate.
Qed.

Lemma of_Z_strict_eq a b :
  safe a -> safe b -> JS.strict_eq (JS.of_Z a) (JS.of_Z b) = true -> a = b.
Proof.
  intros Ha Hb H.
  destruct (strict_eq_true _ _ H) as [He | (s & s' & Hx & Hy)];
    [apply of_Z_inj; assumption|].
  rewrite (of_Z_canonical a Ha) in Hx. rewrite (of_Z_canonical b Hb) in Hy.
  destruct a, b; try reflexivity; unfold canonical in *; discriminate.
Qed.

Lemma click_history ev w :
  mounted w = true -> is_click ev = true ->
  history (exec ev w) =
    (if JS.Object_is (count w) (count (exec ev w)) then history w
     else record_count (count (exec ev w)) (history w)).
Proof.
  intros Hm Hc. destruct_world w. cbn in Hm. subst.
  destruct ev; try discriminate; run_event; cbn -[record_count];
    rewrite ?Object_is_refl; try reflexivity.
  all: match goal with
       | H : JS.Object_is _ _ = _ |- _ => rewrite H; reflexivity
       end.
Qed.

(** X18.  With step 1 and integer counts below 2^53 in magnitude, the
    same clicks append the same entries to the histories of the two
    components, one entry per click: no click is skipped by the
    comparison with the last entry. *)
Theorem histories_agree_in_safe_range bs :
  forall w s a,
  reachable w -> mounted w = true -> step w = one ->
  count w = JS.of_Z a -> CoreCounter.count s = JS.of_Z a ->
  (Z.abs a + Z.of_nat (List.length bs) < 2 ^ 53)%Z ->
  exists l,
    List.length l = List.length bs /\
    CoreCounter.history (CoreCounter.run bs s) =
      (CoreCounter.history s ++ l)%list /\
    history (run (map click_event bs) w) = (history w ++ l)%list.
Proof.
  induction bs as [|b bs IH]; intros w s a Hr Hm Hs Hc Hcs Hb.
  - exists []. cbn. rewrite !app_nil_r. auto.
  - cbn [List.length] in Hb. rewrite Nat2Z.inj_succ in Hb.
    cbn [map]. rewrite run_cons, core_run_cons.
    assert (Hk : is_click (click_event b) = true) by (destruct b; reflexivity).
    destruct (click_count _ w Hm Hk) as (Hm' & Hs' & Hc').
    pose proof (click_history _ w Hm Hk) as Hh.
    pose proof (history_ok_reachable w Hr) as Hok. unfold history_ok in Hok.
    remember (match b with
              | CoreCounter.Decrement => (a - 1)%Z
              | CoreCounter.Increment => (a + 1)%Z
              end) as a' eqn:Ea'.
    assert (Ha' : safe a' /\ a' <> a) by (subst a'; unfold safe; destruct b; lia).
    destruct Ha' as (Hsafe & Hne).
    assert (Hsa : safe a) by (unfold safe; lia).
    assert (Hw' : count (exec (click_event b) w) = JS.of_Z a').
    { rewrite Hc', Hs, Hc. subst a'. unfold one.
      destruct b; cbn [click_event];
        [apply sub_exact | apply add_exact]; unfold safe; lia. }
    assert (Hs'' : CoreCounter.count (CoreCounter.onClick b s) = JS.of_Z a').
    { subst a'. destruct b;
        cbn [CoreCounter.onClick CoreCounter.updateCount CoreCounter.count];
        rewrite Hcs; [apply sub_exact | apply add_exact]; unfold safe; lia. }
    assert (Hhw : history (exec (click_event b) w) =
                  (history w ++ [JS.of_Z a'])%list).
    { rewrite Hh, Hw', Hc.
      destruct (JS.Object_is (JS.of_Z a) (JS.of_Z a')) eqn:Ho.
      - apply Object_is_eq, of_Z_inj in Ho; try assumption. congruence.
      - unfold record_count. destruct (last (history w)) as [l|]; [|reflexivity].
        destruct (JS.strict_eq l (JS.of_Z a')) eqn:Hl; [|reflexivity].
        exfalso. rewrite Hc in Hok.
        destruct Hok as [Hok | [_ Hn]]; [|exact (of_Z_not_NaN a Hsa Hn)].
        destruct (strict_eq_true _ _ Hok) as [-> | (z & z' & -> & Hz)].
        + apply Hne. symmetry. apply of_Z_strict_eq; assumption.
        + destruct (strict_eq_true _ _ Hl) as [He | (y & y' & _ & Hy)].
          * rewrite (of_Z_canonical a' Hsafe) in He.
            destruct a'; try discriminate.
            rewrite (of_Z_canonical a Hsa) in Hz.
            destruct a; try discriminate; congruence.
          * rewrite (of_Z_canonical a' Hsafe) in Hy.
            rewrite (of_Z_canonical a Hsa) in Hz.
            destruct a', a; try discriminate; congruence. }
    assert (Hhs : CoreCounter.history (CoreCounter.onClick b s) =
                  (CoreCounter.history s ++ [JS.of_Z a'])%list).
    { rewrite <- Hs''. destruct b; reflexivity. }
    destruct (IH _ (CoreCounter.onClick b s) a'
                (reachable_exec _ _ Hr) Hm' ltac:(congruence) Hw' Hs'')
      as (l & Hl & H1 & H2).
    { subst a'. destruct b; lia. }
    exists (JS.of_Z a' :: l). cbn [List.length].
    rewrite H1, H2, Hhw, Hhs, <- !app_assoc. cbn. auto.
Qed.

Lemma histories_agree_in_safe_range_witness :
  let bs := [CoreCounter.Increment; CoreCounter.Decrement] in
  exists l,
    List.length l = List.length bs /\
    CoreCounter.history (CoreCounter.run bs CoreCounter.initial) =
      (CoreCounter.history CoreCounter.initial ++ l)%list /\
    history (run (map click_event bs) (start ∅ false false 0)) =
      (history (start ∅ false false 0) ++ l)%list.
Proof.
  apply (histories_agree_in_safe_range
           [CoreCounter.Increment; CoreCounter.Decrement]
           (start ∅ false false 0) CoreCounter.initial 0);
    try reflexivity; apply reachable_start.
Defined.

(* ================================================================== *)
(** * The rendered history list                                        *)
(* ================================================================== *)

Lemma after_last_dash_free d : forall acc,
  dash_free d = true -> after_last_dash acc d = acc.
Proof.
  induction d as [|c d IH]; intros acc H; [reflexivity|].
  cbn in *. apply andb_prop in H as [Hc Hd].
  destruct (Ascii.eqb c "-"); [discriminate|]. apply IH, Hd.
Qed.

Lemma after_last_dash_app a d : forall acc,
  dash_free d = true -> after_last_dash acc (a ++ "-" ++ d) = d.
Proof.
  induction a as [|c a IH]; intros acc Hd.
  - change (after_last_dash d d = d). apply after_last_dash_free, Hd.
  - change (String c a ++ "-" ++ d) with (String c (a ++ "-" ++ d)).
    cbn [after_last_dash].
    destruct (Ascii.eqb c "-"); apply IH, Hd.
Qed.

Lemma dash_free_uint d : dash_free (NilEmpty.string_of_uint d) = true.
Proof. induction d; cbn; trivial. Qed.

Lemma dash_free_dec z : dash_free (JS.dec z) = true.
Proof.
  unfold JS.dec, NilZero.string_of_uint.
  destruct (N.to_uint _); try apply dash_free_uint. reflexivity.
Qed.

Lemma dec_inj i j : JS.dec (Z.of_nat i) = JS.dec (Z.of_nat j) -> i = j.
Proof.
  unfold JS.dec. intros H.
  assert (Hn : forall n, N.to_uint n <> Decimal.Nil).
  { intros [|p]; [discriminate | apply DecimalPos.Unsigned.to_uint_nonnil]. }
  apply (f_equal NilZero.uint_of_string) in H.
  rewrite !NilZero.usu in H by apply Hn.
  injection H as H. apply DecimalN.Unsigned.to_uint_inj in H. lia.
Qed.

Lemma items_keys h : forall n key text,
  (key, text) ∈ View.items n h ->
  exists i, n <= i /\ after_last_dash EmptyString key = JS.dec (Z.of_nat i).
Proof.
  induction h as [|x h IH]; intros n key text Hin; [inversion Hin|].
  cbn [View.items] in Hin. apply elem_of_cons in Hin as [Heq | Hin].
  - injection Heq as -> _. exists n. split; [lia|].
    apply after_last_dash_app, dash_free_dec.
  - destruct (IH _ _ _ Hin) as (i & Hi & He). exists i. split; [lia | exact He].
Qed.

(** X19.  The React keys of the rendered history items, made of the
    entry's text, a dash and the index, are pairwise distinct, whatever
    the history holds (also with repeated or negative entries). *)
Theorem history_keys_are_distinct h :
  NoDup (map fst (View.items 0 h)).
Proof.
  generalize 0. induction h as [|x h IH]; intros n; [constructor|].
  cbn [View.items map fst]. constructor; [|apply IH].
  intros Hin. apply list_elem_of_fmap in Hin as ([key text] & Hk & Hin).
  cbn in Hk. destruct (items_keys _ _ _ _ Hin) as (i & Hi & He).
  rewrite <- Hk, after_last_dash_app in He by apply dash_free_dec.
  apply dec_inj in He. lia.
Qed.

(* ================================================================== *)
(** * The step input and the keyboard                                  *)
(* ================================================================== *)

(** X20.  An empty or blank step input sets the step to 1, and the
    controlled input then shows 1. *)
Theorem blank_step_input_gives_one raw w :
  mounted w = true -> JS.trim raw = EmptyString ->
  step (exec (Change_step raw) w) = one
  /\ View.step_value (View.render (exec (Change_step raw) w)) = "1".
Proof.
  intros Hm Hb.
  assert (H : step (exec (Change_step raw) w) = one).
  { rewrite handleStepChange_step by exact Hm.
    unfold JS.Number. rewrite Hb. reflexivity. }
  split; [exact H|]. unfold View.render, View.step_value. rewrite H.
  vm_compute. reflexivity.
Qed.

Lemma blank_step_input_gives_one_witness :
  let w := exec (Change_step "5") (start ∅ false false 0) in
  step w = JS.of_Z 5 /\ step (exec (Change_step "  ") w) = one.
Proof.
  split; [vm_compute; reflexivity|].
  apply (blank_step_input_gives_one "  "
           (exec (Change_step "5") (start ∅ false false 0)));
    vm_compute; reflexivity.
Defined.

(** X21.  In every reachable state of the mounted component, "ArrowUp"
    has exactly the effect of the Increment button and "ArrowDown" that of
    the Decrement button, on the whole state. *)
Theorem arrow_keys_act_as_buttons w :
  reachable w -> mounted w = true ->
  exec (KeyDown "ArrowUp") w = exec Click_increment w
  /\ exec (KeyDown "ArrowDown") w = exec Click_decrement w.
Proof.
  intros Hr Hm. pose proof (reachable_wf w Hr) as Hw.
  unfold wf in Hw. rewrite Hm in Hw. destruct Hw as (Hu & Hk & Hs & _).
  destruct_world w. cbn in *. subst.
  unfold exec, dispatch, when, onKeyDown, increment, decrement. cbn.
  split; reflexivity.
Qed.

Lemma arrow_keys_act_as_buttons_witness :
  let w := exec (Change_step "5") (start ∅ false false 0) in
  exec (KeyDown "ArrowUp") w = exec Click_increment w
  /\ exec (KeyDown "ArrowDown") w = exec Click_decrement w.
Proof.
  apply arrow_keys_act_as_buttons;
    [apply reachable_exec, reachable_start | reflexivity].
Defined.

(** X22.  In every reachable state the keydown listener is registered
    exactly while the component is mounted and the liveness flag is up
    exactly while it is not; once unmounted, no timer is pending and
    [saveTimerRef] is null. *)
Theorem listener_is_attached_while_mounted w :
  reachable w ->
  keydown_attached w = mounted w
  /\ isUnmountedRef w = negb (mounted w)
  /\ (mounted w = false -> timers w = [] /\ saveTimerRef w = None).
Proof.
  intros Hr. pose proof (reachable_wf w Hr) as Hw. unfold wf in Hw.
  destruct (mounted w); destruct Hw as (Hu & Hk & Hs & Hp);
    rewrite Hu, Hk; repeat split; try discriminate; auto.
Qed.

Lemma listener_is_attached_while_mounted_witness :
  let w := exec Unmount (exec Click_increment (start ∅ false false 0)) in
  keydown_attached w = false /\ isUnmountedRef w = true /\ timers w = [].
Proof.
  destruct (listener_is_attached_while_mounted _
              (reachable_exec _ Unmount
                 (reachable_exec _ Click_increment
                    (reachable_start ∅ false false 0))))
    as (H1 & H2 & H3).
  split; [exact H1|]. split; [exact H2|]. apply H3. reflexivity.
Defined.
